(** * Row-stream deltas (tradedangerous/misc/deltarows.py)

    A shallow embedding of [delta] and [delta_partial], the merge-style
    comparison of two id-ordered streams of [DeltaRow]s, together with the
    fragment of the Python object model that the two functions rely on:
    truthiness ([x or 0]), rich comparison ([<], [>], [>=], [!=]) with its
    [TypeError], object identity ([is]) and generators.

    Modelling choices:
    - input iterables are finite lists, and [next(rows, None)] takes the
      head of what is left;
    - a generator is the finite trace of what it yields, ended by a normal
      return or by the exception it raises, so that what was yielded before
      an exception stays visible;
    - a [DeltaRow] is always truthy (the dataclass defines neither
      [__bool__] nor [__len__]), so [while old_row and new_row] runs while
      both cursors hold a row;
    - scalar values are [None], [int], [float], [str] and
      [datetime.datetime]; a value is referred to through an object with an
      address, and [is] compares addresses, [None] being a singleton;
    - [assert] statements are active. *)

From Stdlib Require Import ZArith QArith List String Ascii Bool Lia.
From Stdlib Require Import Sorted RelationClasses.
Import ListNotations.

Local Open Scope Z_scope.

(** ** The Python fragment *)

Module Py.

(** Exceptions that the embedded code can raise. *)
Inductive exn : Type :=
| AssertionError
| TypeError.

(** Outcome of evaluating an expression that may raise. *)
Inductive result (A : Type) : Type :=
| Ok (a : A)
| Err (e : exn).
Arguments Ok {A} a.
Arguments Err {A} e.

(** A [float]: comparison of floats with each other and with [int]s is by
    exact numerical value, so a finite float is kept as the rational it
    denotes; [FNaN] is unordered. *)
Inductive pyfloat : Type :=
| FNaN
| FNegInf
| FFin (q : Q)
| FPosInf.

(** Scalar values that occur as [modified] and inside [columns].
    [VDatetime] is a [datetime.datetime], kept as its instant. *)
Inductive pyval : Type :=
| VNone
| VInt (z : Z)
| VFloat (f : pyfloat)
| VStr (s : string)
| VDatetime (t : Z).

(** A reference to an object: where it lives and what it holds. *)
Record obj : Type := mkObj { addr : nat; val : pyval }.

(** [bool(v)]. *)
Definition truthy (v : pyval) : bool :=
  match v with
  | VNone => false
  | VInt z => negb (z =? 0)
  | VFloat (FFin q) => negb (Qeq_bool q 0)
  | VFloat _ => true
  | VStr s => negb (String.eqb s EmptyString)
  | VDatetime _ => true
  end.

(** [v or 0]. *)
Definition or_zero (v : pyval) : pyval :=
  if truthy v then v else VInt 0.

(** Ordering of two floats; [None] when a NaN is involved. *)
Definition float_cmp (a b : pyfloat) : option comparison :=
  match a, b with
  | FNaN, _ | _, FNaN => None
  | FNegInf, FNegInf => Some Eq
  | FNegInf, _ => Some Lt
  | _, FNegInf => Some Gt
  | FPosInf, FPosInf => Some Eq
  | FPosInf, _ => Some Gt
  | _, FPosInf => Some Lt
  | FFin p, FFin q => Some (Qcompare p q)
  end.

(** The numeric reading of a value, if it is a number. *)
Definition as_number (v : pyval) : option pyfloat :=
  match v with
  | VInt z => Some (FFin (inject_Z z))
  | VFloat f => Some f
  | _ => None
  end.

(** Three-way ordering behind [<], [>], [<=] and [>=]: numbers with
    numbers, strings with strings, datetimes with datetimes; every other
    combination is a [TypeError]. *)
Definition py_cmp (a b : pyval) : result (option comparison) :=
  match as_number a, as_number b with
  | Some x, Some y => Ok (float_cmp x y)
  | _, _ =>
      match a, b with
      | VStr s, VStr t => Ok (Some (String.compare s t))
      | VDatetime s, VDatetime t => Ok (Some (Z.compare s t))
      | _, _ => Err TypeError
      end
  end.

(** [a >= b]. *)
Definition py_ge (a b : pyval) : result bool :=
  match py_cmp a b with
  | Ok (Some Lt) => Ok false
  | Ok (Some _) => Ok true
  | Ok None => Ok false
  | Err e => Err e
  end.

(** [a < b]. *)
Definition py_lt (a b : pyval) : result bool :=
  match py_cmp a b with
  | Ok (Some Lt) => Ok true
  | Ok _ => Ok false
  | Err e => Err e
  end.

(** [a != b] on values; it never raises. *)
Definition val_ne (a b : pyval) : bool :=
  match as_number a, as_number b with
  | Some x, Some y =>
      match float_cmp x y with Some Eq => false | _ => true end
  | _, _ =>
      match a, b with
      | VNone, VNone => false
      | VStr s, VStr t => negb (String.eqb s t)
      | VDatetime s, VDatetime t => negb (s =? t)
      | _, _ => true
      end
  end.

(** [a != b] on references. *)
Definition py_ne (a b : obj) : bool := val_ne (val a) (val b).

(** [a is b]: the same object. [None] is a singleton. *)
Definition py_is (a b : obj) : bool :=
  match val a, val b with
  | VNone, VNone => true
  | VNone, _ | _, VNone => false
  | _, _ => Nat.eqb (addr a) (addr b)
  end.

(** A generator over finite inputs, as the trace it produces. *)
Inductive gen (A : Type) : Type :=
| Stop
| Yield (a : A) (rest : gen A)
| Raise (e : exn).
Arguments Stop {A}.
Arguments Yield {A} a rest.
Arguments Raise {A} e.

(** What a consumer receives before the generator ends. *)
Fixpoint yields {A : Type} (g : gen A) : list A :=
  match g with
  | Yield a rest => a :: yields rest
  | _ => []
  end.

(** How the generator ends: [None] for a normal return. *)
Fixpoint raised {A : Type} (g : gen A) : option exn :=
  match g with
  | Stop => None
  | Yield _ rest => raised rest
  | Raise e => Some e
  end.

(** Running one generator body after another. *)
Fixpoint gen_then {A : Type} (g h : gen A) : gen A :=
  match g with
  | Stop => h
  | Yield a rest => Yield a (gen_then rest h)
  | Raise e => Raise e
  end.

(** The generator expression [(x for x in g if keep x)]. *)
Fixpoint gen_filter {A : Type} (keep : A -> bool) (g : gen A) : gen A :=
  match g with
  | Stop => Stop
  | Yield a rest =>
      if keep a then Yield a (gen_filter keep rest) else gen_filter keep rest
  | Raise e => Raise e
  end.

(** [yield from g] as the whole body of a generator function. *)
Definition yield_from {A : Type} (g : gen A) : gen A := gen_then g Stop.

End Py.
Import Py.

(** ** Record ids

    [id] is an [int], a [str] or a pair of [int]s. *)

Inductive pyid : Type :=
| IdInt (n : Z)
| IdStr (s : string)
| IdPair (a b : Z).

(** Ordering of two ids of the same kind; [None] across kinds. *)
Definition id_cmp (a b : pyid) : option comparison :=
  match a, b with
  | IdInt m, IdInt n => Some (Z.compare m n)
  | IdStr s, IdStr t => Some (String.compare s t)
  | IdPair a1 a2, IdPair b1 b2 =>
      Some (match Z.compare a1 b1 with Eq => Z.compare a2 b2 | c => c end)
  | _, _ => None
  end.

(** [a < b] on ids. *)
Definition id_lt (a b : pyid) : result bool :=
  match id_cmp a b with
  | Some Lt => Ok true
  | Some _ => Ok false
  | None => Err TypeError
  end.

(** [a > b] on ids. *)
Definition id_gt (a b : pyid) : result bool :=
  match id_cmp a b with
  | Some Gt => Ok true
  | Some _ => Ok false
  | None => Err TypeError
  end.

(** ** The module's data *)

(** [class Op(Enum)]. *)
Inductive Op : Type := ADD | MOD | DEL | UPD.

Definition Op_value (op : Op) : Z :=
  match op with ADD => 1 | MOD => 2 | DEL => 3 | UPD => 4 end.

(** [op != other] on enum members. *)
Definition Op_ne (a b : Op) : bool := negb (Op_value a =? Op_value b).

(** [class DeltaRow]. *)
Record DeltaRow : Type := mkDeltaRow {
  id : pyid;
  modified : obj;
  columns : list obj
}.

Definition entry : Type := (Op * DeltaRow)%type.

(** ** delta *)

(** The [for columns in zip(...)] loop: [UPD] unless some differing pair is
    not the two [modified] objects themselves. *)
Fixpoint scan_columns (old_modified new_modified : obj)
    (pairs : list (obj * obj)) : Op :=
  match pairs with
  | [] => UPD
  | (c0, c1) :: rest =>
      if py_ne c0 c1 then
        if py_is c0 old_modified && py_is c1 new_modified
        then scan_columns old_modified new_modified rest
        else MOD
      else scan_columns old_modified new_modified rest
  end.

(** The body of the main loop for two rows with the same id, after both
    cursors have advanced: [Ok None] is the [continue]. *)
Definition compare_pair (prev_old_row prev_new_row : DeltaRow)
    : result (option Op) :=
  let old_modified := modified prev_old_row in
  let new_modified := modified prev_new_row in
  match py_ge (or_zero (val old_modified)) (or_zero (val new_modified)) with
  | Err e => Err e
  | Ok true => Ok None
  | Ok false =>
      if Nat.eqb (List.length (columns prev_old_row))
                 (List.length (columns prev_new_row))
      then Ok (Some (scan_columns old_modified new_modified
                       (combine (columns prev_old_row) (columns prev_new_row))))
      else Err AssertionError
  end.

(** [while row: yield op, row; row = next(rows, None)]. *)
Fixpoint emit_all (op : Op) (rows : list DeltaRow) : gen entry :=
  match rows with
  | [] => Stop
  | row :: rest => Yield (op, row) (emit_all op rest)
  end.

(** The two loops after the main one. *)
Definition drain (old new : list DeltaRow) : gen entry :=
  gen_then (emit_all ADD new) (emit_all DEL old).

(** The main loop; [old] and [new] are what the two cursors still have to
    deliver, current rows included. *)
Fixpoint delta_loop (old : list DeltaRow) : list DeltaRow -> gen entry :=
  match old with
  | [] => fun new => drain [] new
  | old_row :: old_rows =>
      fix with_old_row (new : list DeltaRow) : gen entry :=
        match new with
        | [] => drain (old_row :: old_rows) []
        | new_row :: new_rows =>
            match id_lt (id old_row) (id new_row) with
            | Err e => Raise e
            | Ok true => Yield (DEL, old_row) (delta_loop old_rows new)
            | Ok false =>
                match id_gt (id old_row) (id new_row) with
                | Err e => Raise e
                | Ok true => Yield (ADD, new_row) (with_old_row new_rows)
                | Ok false =>
                    match compare_pair old_row new_row with
                    | Err e => Raise e
                    | Ok None => delta_loop old_rows new_rows
                    | Ok (Some op) =>
                        Yield (op, new_row) (delta_loop old_rows new_rows)
                    end
                end
            end
        end
  end.

Definition delta (old new : list DeltaRow) : gen entry :=
  delta_loop old new.

(** ** delta_partial *)

Definition delta_partial (old_rows new_rows : list DeltaRow) : gen entry :=
  yield_from (gen_filter (fun e => Op_ne (fst e) DEL) (delta old_rows new_rows)).

(** * Vocabulary of the properties *)

(** ** Order on ids *)

(** Two ids that [<] and [>] can order. *)
Definition comparable (a b : pyid) : Prop := id_cmp a b <> None.

(** [a < b] holds. *)
Definition id_less (a b : pyid) : Prop := id_cmp a b = Some Lt.

(** [a <= b] holds: comparable and not greater. *)
Definition id_le (a b : pyid) : Prop :=
  id_cmp a b = Some Lt \/ id_cmp a b = Some Eq.

(** [a == b] on ids. *)
Definition id_eqb (a b : pyid) : bool :=
  match id_cmp a b with Some Eq => true | _ => false end.

(** Rows in non-decreasing id order. *)
Definition row_le (a b : DeltaRow) : Prop := id_le (id a) (id b).

Definition ascending (rows : list DeltaRow) : Prop := Sorted row_le rows.

(** Rows in strictly increasing id order. *)
Definition row_lt (a b : DeltaRow) : Prop := id_less (id a) (id b).

Definition strictly_ascending (rows : list DeltaRow) : Prop :=
  Sorted row_lt rows.

(** Ids across the two streams can be ordered. *)
Definition orderable (old new : list DeltaRow) : Prop :=
  forall o n, In o old -> In n new -> comparable (id o) (id n).

(** No id of [old] is an id of [new], and ids across the two streams can
    be ordered. *)
Definition no_shared_ids (old new : list DeltaRow) : Prop :=
  forall o n, In o old -> In n new ->
    comparable (id o) (id n) /\ id o <> id n.

(** ** Two rows with the same id *)

(** The column difference at one position is the timestamp itself: the old
    column is the old row's [modified] object and the new column is the new
    row's [modified] object. *)
Definition is_timestamp_pair (o n : DeltaRow) (c0 c1 : obj) : Prop :=
  py_is c0 (modified o) = true /\ py_is c1 (modified n) = true.

(** Every position at which the columns differ holds the two rows' own
    [modified] objects. *)
Definition timestamp_only (o n : DeltaRow) : Prop :=
  forall i c0 c1,
    nth_error (columns o) i = Some c0 ->
    nth_error (columns n) i = Some c1 ->
    py_ne c0 c1 = true ->
    is_timestamp_pair o n c0 c1.

(** A [modified] that is null or the integer zero. *)
Definition null_or_zero (m : obj) : Prop :=
  val m = VNone \/ val m = VInt 0.

(** A [modified] that is null or a number other than NaN. *)
Definition null_or_number (m : obj) : Prop :=
  match val m with
  | VNone | VInt _ => True
  | VFloat f => f <> FNaN
  | _ => False
  end.

(** The new row tests as strictly fresher:
    [(old.modified or 0) >= (new.modified or 0)] is false. *)
Definition newer (o n : DeltaRow) : bool :=
  match py_ge (or_zero (val (modified o))) (or_zero (val (modified n))) with
  | Ok false => true
  | _ => false
  end.

(** Rows with the same id across the two streams can be compared: the
    freshness test does not raise, and the column lists have the same
    length where the new row is strictly fresher. *)
Definition well_matched (old new : list DeltaRow) : Prop :=
  forall o n, In o old -> In n new -> id o = id n ->
    exists res, compare_pair o n = Ok res.

(** ** Entries *)

Definition not_DEL (e : entry) : bool :=
  match fst e with DEL => false | _ => true end.

Definition is_DEL (e : entry) : bool := negb (not_DEL e).

Definition is_ADD (e : entry) : bool :=
  match fst e with ADD => true | _ => false end.

Definition is_change (e : entry) : bool :=
  match fst e with MOD | UPD => true | _ => false end.

(** The rows yielded as [DEL]; as anything else; as [ADD]; as [MOD] or
    [UPD]. *)
Definition deleted (out : list entry) : list DeltaRow :=
  map snd (filter is_DEL out).

Definition kept (out : list entry) : list DeltaRow :=
  map snd (filter not_DEL out).

Definition added (out : list entry) : list DeltaRow :=
  map snd (filter is_ADD out).

Definition changed (out : list entry) : list DeltaRow :=
  map snd (filter is_change out).

(** [l] is [l'] with some elements left out. *)
Inductive subsequence {A : Type} : list A -> list A -> Prop :=
| subsequence_nil : subsequence [] []
| subsequence_skip x l l' : subsequence l l' -> subsequence l (x :: l')
| subsequence_keep x l l' : subsequence l l' -> subsequence (x :: l) (x :: l').

(** ** Orphans and pairs *)

(** Some row of [rows] has id [i]. *)
Definition has_id (i : pyid) (rows : list DeltaRow) : bool :=
  existsb (fun r => id_eqb (id r) i) rows.

(** The rows of [rows] whose id does not occur in [others]. *)
Definition orphans (rows others : list DeltaRow) : list DeltaRow :=
  filter (fun r => negb (has_id (id r) others)) rows.

(** The new rows whose id occurs in the old stream: one per same-id pair
    when ids are not repeated. *)
Definition paired (old new : list DeltaRow) : list DeltaRow :=
  filter (fun n => has_id (id n) old) new.

(** Some old row has the id of [n] and [n] is strictly fresher than it. *)
Definition refreshes (old : list DeltaRow) (n : DeltaRow) : bool :=
  existsb (fun o => id_eqb (id o) (id n) && newer o n) old.

(** The new rows of the same-id pairs in which the new row is strictly
    fresher. *)
Definition refreshed (old new : list DeltaRow) : list DeltaRow :=
  filter (refreshes old) new.

(** C4 as the specification words it: as many entries as there are
    same-id pairs and orphaned rows together. *)
Definition one_entry_per_pair_and_orphan (old new : list DeltaRow) : Prop :=
  List.length (yields (delta old new))
  = (List.length (paired old new)
     + List.length (orphans old new) + List.length (orphans new old))%nat.

(** ** Cursor positions *)

(** The cursor positions that the main loop passes through, starting from
    the two whole streams: [visits old new old' new'] when the loop that
    starts on [old] and [new] comes to stand on [old'] and [new']. *)
Inductive visits :
  list DeltaRow -> list DeltaRow -> list DeltaRow -> list DeltaRow -> Prop :=
| visits_start old new : visits old new old new
| visits_after_DEL o os n ns old' new' :
    id_lt (id o) (id n) = Ok true ->
    visits os (n :: ns) old' new' ->
    visits (o :: os) (n :: ns) old' new'
| visits_after_ADD o os n ns old' new' :
    id_lt (id o) (id n) = Ok false ->
    id_gt (id o) (id n) = Ok true ->
    visits (o :: os) ns old' new' ->
    visits (o :: os) (n :: ns) old' new'
| visits_after_pair o os n ns res old' new' :
    id_lt (id o) (id n) = Ok false ->
    id_gt (id o) (id n) = Ok false ->
    compare_pair o n = Ok res ->
    visits os ns old' new' ->
    visits (o :: os) (n :: ns) old' new'.

(** ** Sample rows *)

(** A row whose timestamp is the float NaN. *)
Definition nan_stamped : DeltaRow :=
  mkDeltaRow (IdInt 1) (mkObj 1 (VFloat FNaN)) [].

(** An old row without timestamp and a new row, same id, stamped with a
    [datetime]. *)
Definition null_stamped : DeltaRow :=
  mkDeltaRow (IdInt 1) (mkObj 0 VNone) [].

Definition datetime_stamped : DeltaRow :=
  mkDeltaRow (IdInt 1) (mkObj 1 (VDatetime 1714780800)) [].

(** A row that is the same on both sides. *)
Definition unchanged_row : DeltaRow :=
  mkDeltaRow (IdInt 1) (mkObj 0 (VInt 100)) [mkObj 1 (VStr "x")].

Module Instances.

Local Open Scope string_scope.

Definition none : obj := mkObj 0 VNone.
Definition zero : obj := mkObj 1 (VInt 0).
Definition t200 : obj := mkObj 2 (VInt 1714780800).
Definition t201 : obj := mkObj 3 (VInt 1714867200).
Definition x_old : obj := mkObj 4 (VStr "x").
Definition x_new : obj := mkObj 5 (VStr "x").
Definition y_new : obj := mkObj 6 (VStr "y").

(** A row and its successor in which only the timestamp moved, the
    timestamp being mirrored in the last column. *)
Definition row4 : DeltaRow := mkDeltaRow (IdInt 1100) t200 [x_old; t200].
Definition row5 : DeltaRow := mkDeltaRow (IdInt 1100) t201 [x_new; t201].

(** The same successor with a fresh copy of the timestamp in the column. *)
Definition row5_copy : DeltaRow :=
  mkDeltaRow (IdInt 1100) t201 [x_new; mkObj 7 (VInt 1714867200)].

(** A successor with a changed column. *)
Definition row7 : DeltaRow := mkDeltaRow (IdInt 1100) t201 [y_new; t201].

Definition row1 : DeltaRow := mkDeltaRow (IdInt 1000) none [x_old].
Definition row2 : DeltaRow := mkDeltaRow (IdInt 1001) none [x_new].
Definition row9 : DeltaRow := mkDeltaRow (IdInt 2000) zero [].

End Instances.

(** ** Vocabulary of the further properties *)

(** The loop body raises [TypeError] on the two rows: their ids cannot be
    ordered, or they have the same id and the freshness test cannot order
    the two timestamps. *)
Definition unorderable_pair (o n : DeltaRow) : Prop :=
  id_cmp (id o) (id n) = None
  \/ (id o = id n
      /\ py_cmp (or_zero (val (modified o))) (or_zero (val (modified n)))
         = Err TypeError).

(** The ids of a stream. *)
Definition ids (rows : list DeltaRow) : list pyid := map id rows.

(** A [modified] that is null or a number that is not negative. *)
Definition null_or_not_negative (m : obj) : Prop :=
  match val m with
  | VNone => True
  | VInt z => 0 <= z
  | VFloat (FFin q) => (0 <= q)%Q
  | VFloat FPosInf => True
  | _ => False
  end.

(** A [modified] that is a number greater than zero. *)
Definition positive_number (m : obj) : Prop :=
  match val m with
  | VInt z => 0 < z
  | VFloat (FFin q) => (0 < q)%Q
  | VFloat FPosInf => True
  | _ => False
  end.

(** The two rows can be compared by the loop body without error. *)
Definition matched (p : DeltaRow * DeltaRow) : Prop :=
  exists res, compare_pair (fst p) (snd p) = Ok res.

(** The new row of a pair when it tests as strictly fresher. *)
Definition newer_pair (p : DeltaRow * DeltaRow) : bool :=
  newer (fst p) (snd p).

(** A new row that has to be written to bring the old stream up to date:
    its id is not in the old stream, or it is strictly fresher than the
    old row with its id. *)
Definition to_write (old : list DeltaRow) (n : DeltaRow) : bool :=
  negb (has_id (id n) old) || refreshes old n.

(** * Properties *)

(** ** Generators *)

Lemma gen_then_Stop {A : Type} (g : gen A) : gen_then g Stop = g.
Proof. induction g; simpl; congruence. Qed.

Lemma yields_gen_filter {A : Type} (keep : A -> bool) (g : gen A) :
  yields (gen_filter keep g) = filter keep (yields g).
Proof.
  induction g as [|a rest IH|e]; simpl; auto.
  destruct (keep a); simpl; now rewrite IH.
Qed.

Lemma raised_gen_filter {A : Type} (keep : A -> bool) (g : gen A) :
  raised (gen_filter keep g) = raised g.
Proof.
  induction g as [|a rest IH|e]; simpl; auto.
  now destruct (keep a).
Qed.

Lemma yields_emit_all op rows : yields (emit_all op rows) = map (pair op) rows.
Proof. induction rows as [|r rows IH]; simpl; [|rewrite IH]; reflexivity. Qed.

Lemma raised_emit_all op rows : raised (emit_all op rows) = None.
Proof. induction rows; simpl; auto. Qed.

(** ** Unfolding [delta] *)

Lemma delta_nil_l new : delta [] new = emit_all ADD new.
Proof. unfold delta; simpl; unfold drain; simpl. apply gen_then_Stop. Qed.

Lemma delta_nil_r old : delta old [] = emit_all DEL old.
Proof. destruct old; reflexivity. Qed.

Lemma delta_cons o os n ns :
  delta (o :: os) (n :: ns) =
  match id_lt (id o) (id n) with
  | Err e => Raise e
  | Ok true => Yield (DEL, o) (delta os (n :: ns))
  | Ok false =>
      match id_gt (id o) (id n) with
      | Err e => Raise e
      | Ok true => Yield (ADD, n) (delta (o :: os) ns)
      | Ok false =>
          match compare_pair o n with
          | Err e => Raise e
          | Ok None => delta os ns
          | Ok (Some op) => Yield (op, n) (delta os ns)
          end
      end
  end.
Proof. reflexivity. Qed.

Arguments delta : simpl never.

(** Induction along the moves of the two cursors. *)
Lemma cursor_ind (P : list DeltaRow -> list DeltaRow -> Prop) :
  (forall new, P [] new) ->
  (forall old, P old []) ->
  (forall o os n ns,
      P os (n :: ns) -> P (o :: os) ns -> P os ns -> P (o :: os) (n :: ns)) ->
  forall old new, P old new.
Proof.
  intros Hl Hr Hstep old.
  induction old as [|o os IHo]; intros new; [apply Hl|].
  induction new as [|n ns IHn]; [apply Hr|].
  apply Hstep; auto.
Qed.

Ltac cursor_induction old new :=
  revert old new;
  match goal with
  | |- forall old new, @?P old new => apply (cursor_ind P); cbv beta
  end.

(** ** The order on ids *)

Lemma ascii_compare_refl c : Ascii.compare c c = Eq.
Proof. unfold Ascii.compare. apply N.compare_refl. Qed.

Lemma string_compare_refl s : String.compare s s = Eq.
Proof. induction s as [|c s IH]; simpl; auto. now rewrite ascii_compare_refl. Qed.

Lemma ascii_compare_lt_trans a b c :
  Ascii.compare a b = Lt -> Ascii.compare b c = Lt -> Ascii.compare a c = Lt.
Proof.
  unfold Ascii.compare. rewrite !N.compare_lt_iff. apply N.lt_trans.
Qed.

Lemma string_compare_lt_trans s : forall t u,
  String.compare s t = Lt -> String.compare t u = Lt -> String.compare s u = Lt.
Proof.
  induction s as [|a s IH]; intros [|b t] [|c u]; simpl; try discriminate; auto.
  destruct (Ascii.compare a b) eqn:Hab; try discriminate.
  - apply Ascii.compare_eq_iff in Hab; subst b.
    destruct (Ascii.compare a c); try discriminate; auto. apply IH.
  - intros _. destruct (Ascii.compare b c) eqn:Hbc; try discriminate.
    + apply Ascii.compare_eq_iff in Hbc; subst c. now rewrite Hab.
    + intros _. now rewrite (ascii_compare_lt_trans _ _ _ Hab Hbc).
Qed.

Lemma id_cmp_refl a : id_cmp a a = Some Eq.
Proof.
  destruct a; simpl; rewrite ?Z.compare_refl, ?string_compare_refl; auto.
Qed.

Lemma id_cmp_eq a b : id_cmp a b = Some Eq -> a = b.
Proof.
  destruct a as [m|s|a1 a2], b as [n|t|b1 b2]; simpl; try discriminate;
    intros H; injection H as H.
  - apply Z.compare_eq in H. congruence.
  - apply String.compare_eq_iff in H. congruence.
  - destruct (Z.compare_spec a1 b1); try discriminate.
    apply Z.compare_eq in H. congruence.
Qed.

Lemma id_cmp_antisym a b : id_cmp b a = option_map CompOpp (id_cmp a b).
Proof.
  destruct a as [m|s|a1 a2], b as [n|t|b1 b2]; simpl; auto.
  - now rewrite (Z.compare_antisym m n).
  - now rewrite (String.compare_antisym t s).
  - rewrite (Z.compare_antisym a1 b1), (Z.compare_antisym a2 b2).
    now destruct (a1 ?= b1).
Qed.

Lemma id_cmp_lt_trans a b c :
  id_cmp a b = Some Lt -> id_cmp b c = Some Lt -> id_cmp a c = Some Lt.
Proof.
  destruct a as [m|s|a1 a2], b as [n|t|b1 b2], c as [p|u|c1 c2];
    simpl; try discriminate; intros H1 H2;
    injection H1 as H1; injection H2 as H2; f_equal.
  - rewrite Z.compare_lt_iff in *. lia.
  - eapply string_compare_lt_trans; eauto.
  - destruct (Z.compare_spec a1 b1), (Z.compare_spec b1 c1),
      (Z.compare_spec a1 c1); try discriminate; try lia; auto.
    rewrite Z.compare_lt_iff in *. lia.
Qed.

Lemma id_cmp_gt_lt a b : id_cmp a b = Some Gt <-> id_cmp b a = Some Lt.
Proof.
  rewrite (id_cmp_antisym a b).
  destruct (id_cmp a b) as [[]|]; simpl; split; congruence.
Qed.

Lemma id_le_lt_trans a b c : id_le a b -> id_less b c -> id_less a c.
Proof.
  intros [H|H] Hbc; [eapply id_cmp_lt_trans; eauto|].
  apply id_cmp_eq in H. now subst.
Qed.

Lemma id_lt_le_trans a b c : id_less a b -> id_le b c -> id_less a c.
Proof.
  intros Hab [H|H]; [eapply id_cmp_lt_trans; eauto|].
  apply id_cmp_eq in H. now subst.
Qed.

Lemma id_le_trans a b c : id_le a b -> id_le b c -> id_le a c.
Proof.
  intros Hab [H|H].
  - left. eapply id_le_lt_trans; eauto.
  - apply id_cmp_eq in H. now subst.
Qed.

Lemma id_less_irrefl a : ~ id_less a a.
Proof. unfold id_less. rewrite id_cmp_refl. discriminate. Qed.

(** The three outcomes of the two id tests of the main loop. *)
Lemma id_tests a b :
  (id_cmp a b = None /\ id_lt a b = Err TypeError)
  \/ (id_less a b /\ id_lt a b = Ok true)
  \/ (id_less b a /\ id_lt a b = Ok false /\ id_gt a b = Ok true)
  \/ (a = b /\ id_lt a b = Ok false /\ id_gt a b = Ok false).
Proof.
  unfold id_lt, id_gt, id_less.
  destruct (id_cmp a b) as [[]|] eqn:H; auto.
  - right; right; right. split; auto. now apply id_cmp_eq.
  - right; right; left. split; auto. now apply id_cmp_gt_lt.
Qed.

(** ** Two rows with the same id *)

Lemma delta_same_id o os n ns :
  id o = id n ->
  delta (o :: os) (n :: ns) =
  match compare_pair o n with
  | Err e => Raise e
  | Ok None => delta os ns
  | Ok (Some op) => Yield (op, n) (delta os ns)
  end.
Proof.
  intros E. rewrite delta_cons. unfold id_lt, id_gt.
  now rewrite E, id_cmp_refl.
Qed.

Lemma py_lt_not_ge a b : py_lt a b = Ok true -> py_ge a b = Ok false.
Proof.
  unfold py_lt, py_ge. destruct (py_cmp a b) as [[[]|]|]; congruence.
Qed.

Lemma scan_columns_UPD o n : forall l0 l1,
  scan_columns (modified o) (modified n) (combine l0 l1) = UPD <->
  (forall i c0 c1, nth_error l0 i = Some c0 -> nth_error l1 i = Some c1 ->
     py_ne c0 c1 = true -> is_timestamp_pair o n c0 c1).
Proof.
  unfold is_timestamp_pair.
  induction l0 as [|a l0 IH]; intros [|b l1]; simpl.
  - split; auto. intros _ [|i] ? ?; discriminate.
  - split; auto. intros _ [|i] ? ?; discriminate.
  - split; auto. intros _ [|i] ? ? ?; discriminate.
  - destruct (py_ne a b) eqn:Hne.
    + destruct (py_is a (modified o) && py_is b (modified n)) eqn:His.
      * rewrite IH. apply andb_true_iff in His.
        split.
        -- intros H [|i] c0 c1; simpl; [|apply H].
           intros [= <-] [= <-] _. exact His.
        -- intros H i c0 c1. apply (H (S i)).
      * split; [discriminate|].
        intros H. destruct (H 0%nat a b eq_refl eq_refl Hne) as [H0 H1].
        rewrite H0, H1 in His. discriminate.
    + rewrite IH. split.
      * intros H [|i] c0 c1; simpl; [|apply H].
        intros [= <-] [= <-] Hd. congruence.
      * intros H i c0 c1. apply (H (S i)).
Qed.

Lemma scan_columns_cases om nm pairs :
  scan_columns om nm pairs = UPD \/ scan_columns om nm pairs = MOD.
Proof.
  induction pairs as [|[c0 c1] rest IH]; simpl; auto.
  destruct (py_ne c0 c1); auto.
  destruct (py_is c0 om && py_is c1 nm); auto.
Qed.

(** C1. When both cursors stand on rows with the same id, the new row is
    strictly fresher ([(old.modified or 0) < (new.modified or 0)]) and the
    two column lists have the same length, [delta] yields exactly one entry
    for the pair, carrying the new row, and goes on with the rest of both
    streams. The entry is tagged [UPD] exactly when every position at which
    the columns differ holds the old row's [modified] object on the old
    side and the new row's [modified] object on the new side, and [MOD]
    exactly when some differing position is not of that shape. *)
Theorem delta_fresher_pair_UPD_or_MOD o n old new :
  id o = id n ->
  py_lt (or_zero (val (modified o))) (or_zero (val (modified n))) = Ok true ->
  List.length (columns o) = List.length (columns n) ->
  exists op,
    delta (o :: old) (n :: new) = Yield (op, n) (delta old new)
    /\ (op = UPD <-> timestamp_only o n)
    /\ (op = MOD <-> ~ timestamp_only o n).
Proof.
  intros Hid Hlt Hlen.
  rewrite (delta_same_id _ _ _ _ Hid). unfold compare_pair.
  rewrite (py_lt_not_ge _ _ Hlt), Hlen, Nat.eqb_refl.
  eexists; split; [reflexivity|].
  pose proof (scan_columns_UPD o n (columns o) (columns n)) as HU.
  fold (timestamp_only o n) in HU.
  split; [exact HU|].
  destruct (scan_columns_cases (modified o) (modified n)
              (combine (columns o) (columns n))) as [E|E]; rewrite E in *.
  - split; [discriminate|]. intros H. exfalso. apply H, HU. reflexivity.
  - split; auto. intros _ H. apply HU in H. discriminate.
Qed.

(** C2. When both cursors stand on rows with the same id and
    [(old.modified or 0) >= (new.modified or 0)] holds, the pair is passed
    over: nothing is yielded for it, whatever the two column lists are
    (their lengths included), and [delta] goes on with the rest of both
    streams. *)
Theorem delta_not_fresher_pair_skipped o n old new :
  id o = id n ->
  py_ge (or_zero (val (modified o))) (or_zero (val (modified n))) = Ok true ->
  compare_pair o n = Ok None
  /\ delta (o :: old) (n :: new) = delta old new
  /\ forall cols_o cols_n,
       delta (mkDeltaRow (id o) (modified o) cols_o :: old)
             (mkDeltaRow (id n) (modified n) cols_n :: new)
       = delta old new.
Proof.
  intros Hid Hge.
  assert (Hskip : forall cols_o cols_n,
             compare_pair (mkDeltaRow (id o) (modified o) cols_o)
                          (mkDeltaRow (id n) (modified n) cols_n) = Ok None).
  { intros. unfold compare_pair; simpl. now rewrite Hge. }
  assert (Hpair : compare_pair o n = Ok None).
  { unfold compare_pair. now rewrite Hge. }
  repeat split; auto.
  - now rewrite (delta_same_id _ _ _ _ Hid), Hpair.
  - intros. rewrite delta_same_id by exact Hid. now rewrite Hskip.
Qed.

Lemma or_zero_null_or_zero m : null_or_zero m -> or_zero (val m) = VInt 0.
Proof. intros [H|H]; rewrite H; reflexivity. Qed.

(** C7. In the freshness test [(old.modified or 0) >= (new.modified or 0)]
    a null [modified] and a zero [modified] are interchangeable on either
    side: replacing one by the other leaves the outcome of the test
    unchanged. A same-id pair whose two [modified] fields are each null or
    zero is passed over with nothing yielded for it. *)
Theorem null_and_zero_modified_interchangeable :
  (forall m m' x : obj,
      null_or_zero m -> null_or_zero m' ->
      py_ge (or_zero (val m)) (or_zero (val x))
      = py_ge (or_zero (val m')) (or_zero (val x))
      /\ py_ge (or_zero (val x)) (or_zero (val m))
         = py_ge (or_zero (val x)) (or_zero (val m')))
  /\ (forall o n old new,
         id o = id n ->
         null_or_zero (modified o) -> null_or_zero (modified n) ->
         delta (o :: old) (n :: new) = delta old new).
Proof.
  split.
  - intros m m' x Hm Hm'.
    now rewrite (or_zero_null_or_zero _ Hm), (or_zero_null_or_zero _ Hm').
  - intros o n old new Hid Ho Hn.
    rewrite (delta_same_id _ _ _ _ Hid). unfold compare_pair.
    now rewrite (or_zero_null_or_zero _ Ho), (or_zero_null_or_zero _ Hn).
Qed.

(** ** delta_partial *)

(** C9. What [delta_partial] yields is what [delta] yields on the same
    inputs with every [(DEL, _)] entry removed and the other entries in
    their order, and [delta_partial] ends the way [delta] ends: normally,
    or with the same exception. *)
Theorem delta_partial_is_delta_without_DEL old new :
  yields (delta_partial old new) = filter not_DEL (yields (delta old new))
  /\ raised (delta_partial old new) = raised (delta old new).
Proof.
  unfold delta_partial, yield_from. rewrite gen_then_Stop.
  rewrite yields_gen_filter, raised_gen_filter. split; auto.
  apply filter_ext. intros [[] r]; reflexivity.
Qed.

(** ** Where the yielded rows come from *)

Lemma subsequence_refl {A : Type} (l : list A) : subsequence l l.
Proof.
  induction l; [apply subsequence_nil | apply subsequence_keep; auto].
Qed.

Lemma subsequence_nil_l {A : Type} (l : list A) : subsequence [] l.
Proof. induction l; constructor; auto. Qed.

Lemma subsequence_length {A : Type} (l l' : list A) :
  subsequence l l' -> (List.length l <= List.length l')%nat.
Proof. induction 1; simpl; lia. Qed.

Lemma subsequence_In {A : Type} (l l' : list A) x :
  subsequence l l' -> In x l -> In x l'.
Proof. induction 1; simpl; intuition. Qed.

Lemma deleted_kept_length out :
  (List.length (deleted out) + List.length (kept out) = List.length out)%nat.
Proof.
  unfold deleted, kept, is_DEL. rewrite !length_map.
  induction out as [|e out IH]; simpl; auto.
  destruct (not_DEL e); simpl; lia.
Qed.

Lemma scan_columns_not_DEL om nm pairs :
  scan_columns om nm pairs <> DEL.
Proof. destruct (scan_columns_cases om nm pairs); congruence. Qed.

Lemma compare_pair_not_DEL o n op :
  compare_pair o n = Ok (Some op) -> op = UPD \/ op = MOD.
Proof.
  unfold compare_pair.
  destruct (py_ge _ _) as [[]|]; try discriminate.
  destruct (Nat.eqb _ _); try discriminate.
  intros [= <-]. apply scan_columns_cases.
Qed.

Lemma deleted_cons op r out :
  deleted ((op, r) :: out) =
  match op with DEL => r :: deleted out | _ => deleted out end.
Proof. now destruct op. Qed.

Lemma kept_cons op r out :
  kept ((op, r) :: out) =
  match op with DEL => kept out | _ => r :: kept out end.
Proof. now destruct op. Qed.

Lemma delta_deleted_kept old new :
  subsequence (deleted (yields (delta old new))) old
  /\ subsequence (kept (yields (delta old new))) new.
Proof.
  cursor_induction old new.
  - intros new. rewrite delta_nil_l.
    induction new as [|n ns [IH1 IH2]]; simpl.
    + split; apply subsequence_nil.
    + rewrite deleted_cons, kept_cons. auto using subsequence_keep.
  - intros old. rewrite delta_nil_r.
    induction old as [|o os [IH1 IH2]]; simpl.
    + split; apply subsequence_nil.
    + rewrite deleted_cons, kept_cons. auto using subsequence_keep.
  - intros o os n ns [D1 K1] [D2 K2] [D3 K3]. rewrite delta_cons.
    assert (Hnil : subsequence (deleted []) (o :: os)
                   /\ subsequence (kept []) (n :: ns))
      by (split; apply subsequence_nil_l).
    destruct (id_lt (id o) (id n)) as [[]|]; simpl; auto.
    { rewrite deleted_cons, kept_cons. auto using subsequence_keep. }
    destruct (id_gt (id o) (id n)) as [[]|]; simpl; auto.
    { rewrite deleted_cons, kept_cons. auto using subsequence_keep. }
    destruct (compare_pair o n) as [[op|]|] eqn:Hp; simpl; auto.
    + rewrite deleted_cons, kept_cons.
      destruct (compare_pair_not_DEL _ _ _ Hp); subst op;
        auto using subsequence_keep, subsequence_skip.
    + auto using subsequence_skip.
Qed.

(** C10. Whatever the two streams are, the rows that [delta] yields as
    [DEL] are rows of the old stream, each position taken at most once and
    in stream order, and the rows it yields as [ADD], [MOD] or [UPD] are
    rows of the new stream, each position taken at most once and in stream
    order; so no more entries are yielded than the two streams have rows. *)
Theorem delta_yields_each_row_at_most_once old new :
  subsequence (deleted (yields (delta old new))) old
  /\ subsequence (kept (yields (delta old new))) new
  /\ (forall r, In (DEL, r) (yields (delta old new)) -> In r old)
  /\ (forall op r, In (op, r) (yields (delta old new)) ->
        op <> DEL -> In r new)
  /\ (List.length (yields (delta old new))
      <= List.length old + List.length new)%nat.
Proof.
  destruct (delta_deleted_kept old new) as [HD HK].
  repeat split; auto.
  - intros r Hin. apply (subsequence_In _ _ _ HD).
    unfold deleted. apply (in_map snd _ (DEL, r)).
    apply filter_In. split; auto.
  - intros op r Hin Hop. apply (subsequence_In _ _ _ HK).
    unfold kept. apply (in_map snd _ (op, r)).
    apply filter_In. split; auto. now destruct op.
  - rewrite <- (deleted_kept_length (yields (delta old new))).
    apply subsequence_length in HD, HK. lia.
Qed.

Lemma delta_yields_In op r old new :
  In (op, r) (yields (delta old new)) -> In r old \/ In r new.
Proof.
  intros H. destruct (delta_deleted_kept old new) as [HD HK].
  destruct (not_DEL (op, r)) eqn:E.
  - right. apply (subsequence_In _ _ _ HK).
    apply (in_map snd _ (op, r)), filter_In. auto.
  - left. apply (subsequence_In _ _ _ HD).
    apply (in_map snd _ (op, r)), filter_In. unfold is_DEL. rewrite E. auto.
Qed.

(** ** Streams without a common id *)

Lemma filter_is_DEL_entries op rows :
  filter is_DEL (map (pair op) rows) =
  match op with DEL => map (pair op) rows | _ => [] end.
Proof.
  induction rows as [|r rows IH]; simpl; [now destruct op|].
  rewrite IH. now destruct op.
Qed.

Lemma filter_not_DEL_entries op rows :
  filter not_DEL (map (pair op) rows) =
  match op with DEL => [] | _ => map (pair op) rows end.
Proof.
  induction rows as [|r rows IH]; simpl; [now destruct op|].
  rewrite IH. now destruct op.
Qed.

Lemma delta_no_shared_ids old new :
  no_shared_ids old new ->
  raised (delta old new) = None
  /\ filter is_DEL (yields (delta old new)) = map (pair DEL) old
  /\ filter not_DEL (yields (delta old new)) = map (pair ADD) new.
Proof.
  cursor_induction old new.
  - intros new _. rewrite delta_nil_l, raised_emit_all, yields_emit_all.
    now rewrite filter_is_DEL_entries, filter_not_DEL_entries.
  - intros old _. rewrite delta_nil_r, raised_emit_all, yields_emit_all.
    now rewrite filter_is_DEL_entries, filter_not_DEL_entries.
  - intros o os n ns IH1 IH2 _ H.
    assert (H1 : no_shared_ids os (n :: ns))
      by (intros a b Ha Hb; apply H; simpl; auto).
    assert (H2 : no_shared_ids (o :: os) ns)
      by (intros a b Ha Hb; apply H; simpl; auto).
    destruct (H o n) as [Hc Hne]; [simpl; auto ..|].
    rewrite delta_cons.
    destruct (id_tests (id o) (id n))
      as [[E _]|[[_ E]|[(_ & E & E')|(E & _)]]]; try contradiction.
    + rewrite E. destruct (IH1 H1) as (R & D & K). simpl.
      rewrite R, D. auto.
    + rewrite E, E'. destruct (IH2 H2) as (R & D & K). simpl.
      rewrite R, K. auto.
Qed.

(** C3. When no id occurs in both streams, [delta] ends normally, the
    [DEL] entries it yields are exactly the old rows, one each and in
    stream order, and all its other entries are [ADD] entries, exactly the
    new rows, one each and in stream order; no [MOD] or [UPD] is yielded.
    Two empty streams give nothing; an empty old stream gives one [ADD] per
    new row in order; an empty new stream gives one [DEL] per old row in
    order. *)
Theorem delta_disjoint_streams :
  (forall old new,
      no_shared_ids old new ->
      raised (delta old new) = None
      /\ filter is_DEL (yields (delta old new)) = map (pair DEL) old
      /\ filter not_DEL (yields (delta old new)) = map (pair ADD) new)
  /\ delta [] [] = Stop
  /\ (forall new,
        raised (delta [] new) = None
        /\ yields (delta [] new) = map (pair ADD) new)
  /\ (forall old,
        raised (delta old []) = None
        /\ yields (delta old []) = map (pair DEL) old).
Proof.
  split; [exact delta_no_shared_ids|].
  split; [reflexivity|].
  split.
  - intros new. now rewrite delta_nil_l, raised_emit_all, yields_emit_all.
  - intros old. now rewrite delta_nil_r, raised_emit_all, yields_emit_all.
Qed.

(** ** Output order *)

#[local] Instance row_le_trans : Transitive row_le.
Proof. intros a b c. apply id_le_trans. Qed.

Lemma ascending_strong rows : ascending rows <-> StronglySorted row_le rows.
Proof.
  split; [apply Sorted_StronglySorted, row_le_trans|apply StronglySorted_Sorted].
Qed.

Lemma delta_strongly_sorted old new :
  StronglySorted row_le old -> StronglySorted row_le new ->
  StronglySorted row_le (map snd (yields (delta old new))).
Proof.
  cursor_induction old new.
  - intros new _ Hn. rewrite delta_nil_l, yields_emit_all, map_map.
    simpl. now rewrite map_id.
  - intros old Ho _. rewrite delta_nil_r, yields_emit_all, map_map.
    simpl. now rewrite map_id.
  - intros o os n ns IH1 IH2 IH3 Ho Hn.
    pose proof Ho as Ho'. pose proof Hn as Hn'.
    apply StronglySorted_inv in Ho' as [Hos Fo].
    apply StronglySorted_inv in Hn' as [Hns Fn].
    rewrite Forall_forall in Fo, Fn.
    assert (Hbound : forall x r old' new',
               (forall a, In a old' -> row_le x a) ->
               (forall b, In b new' -> row_le x b) ->
               In r (map snd (yields (delta old' new'))) -> row_le x r).
    { intros x r old' new' Ha Hb Hin.
      apply in_map_iff in Hin as [[op' r'] [<- Hin]].
      apply delta_yields_In in Hin as [Hin|Hin]; auto. }
    rewrite delta_cons.
    destruct (id_tests (id o) (id n))
      as [[_ E]|[[L E]|[(L & E & E')|(L & E & E')]]]; rewrite E; clear E.
    + constructor.
    + simpl. constructor; auto.
      apply Forall_forall. intros r. apply (Hbound o); auto.
      intros b [<-|Hb]; [now left|].
      left. eapply id_lt_le_trans; [exact L|]. now apply Fn.
    + rewrite E'. simpl. constructor; auto.
      apply Forall_forall. intros r. apply (Hbound n); auto.
      intros a [<-|Ha]; [now left|].
      left. eapply id_lt_le_trans; [exact L|]. now apply Fo.
    + rewrite E'. unfold row_le in Fo.
      destruct (compare_pair o n) as [[op|]|]; simpl; auto; [|constructor].
      constructor; auto.
      apply Forall_forall. intros r. apply (Hbound n); auto.
      intros a Ha. unfold row_le. rewrite <- L. now apply Fo.
Qed.

(** The cursors pass over rows whose ids are all below the ids still to
    come on the other side. *)
Lemma delta_low_new_first more_old more_new : forall new,
  (forall r r', In r new -> In r' more_old -> id_less (id r) (id r')) ->
  exists rest,
    yields (delta more_old (new ++ more_new)) = map (pair ADD) new ++ rest.
Proof.
  destruct more_old as [|h t].
  - intros new _. exists (map (pair ADD) more_new).
    now rewrite delta_nil_l, yields_emit_all, map_app.
  - induction new as [|n ns IH]; intros H; simpl; [eauto|].
    rewrite delta_cons.
    assert (L : id_less (id n) (id h)) by (apply H; simpl; auto).
    destruct (id_tests (id h) (id n))
      as [[E _]|[[L' _]|[(_ & E & E')|(E & _)]]].
    + unfold id_less in L.
      rewrite (id_cmp_antisym (id h) (id n)), E in L. discriminate.
    + exfalso. apply (id_less_irrefl (id n)).
      eapply id_cmp_lt_trans; eauto.
    + rewrite E, E'. simpl.
      destruct IH as [rest Hr]; [intros; apply H; simpl; auto|].
      exists rest. now rewrite Hr.
    + rewrite E in L. now apply id_less_irrefl in L.
Qed.

Lemma delta_low_old_first more_old more_new : forall old,
  (forall r r', In r old -> In r' more_new -> id_less (id r) (id r')) ->
  exists rest,
    yields (delta (old ++ more_old) more_new) = map (pair DEL) old ++ rest.
Proof.
  destruct more_new as [|h t].
  - intros old _. exists (map (pair DEL) more_old).
    now rewrite delta_nil_r, yields_emit_all, map_app.
  - induction old as [|o os IH]; intros H; simpl; [eauto|].
    rewrite delta_cons.
    assert (L : id_less (id o) (id h)) by (apply H; simpl; auto).
    destruct (id_tests (id o) (id h))
      as [[E _]|[[_ E]|[(L' & _)|(E & _)]]].
    + unfold id_less in L. rewrite E in L. discriminate.
    + rewrite E. simpl.
      destruct IH as [rest Hr]; [intros; apply H; simpl; auto|].
      exists rest. now rewrite Hr.
    + exfalso. apply (id_less_irrefl (id o)).
      eapply id_cmp_lt_trans; eauto.
    + rewrite E in L. now apply id_less_irrefl in L.
Qed.

Lemma delta_prefix_stable more_old more_new old new :
  (forall r r', In r (old ++ new) -> In r' (more_old ++ more_new) ->
     id_less (id r) (id r')) ->
  exists rest,
    yields (delta (old ++ more_old) (new ++ more_new))
    = yields (delta old new) ++ rest.
Proof.
  cursor_induction old new.
  - intros new H. rewrite delta_nil_l, yields_emit_all. simpl.
    apply delta_low_new_first.
    intros r r' Hr Hr'. apply H; simpl; auto using in_or_app.
  - intros old H. rewrite delta_nil_r, yields_emit_all, app_nil_l.
    apply delta_low_old_first.
    intros r r' Hr Hr'. apply H; rewrite ?app_nil_r; auto using in_or_app.
  - intros o os n ns IH1 IH2 IH3 H.
    rewrite <- !app_comm_cons, !delta_cons.
    destruct (id_lt (id o) (id n)) as [[]|]; simpl; eauto.
    { destruct IH1 as [rest Hr].
      - intros r r' Hr Hr'. apply H; auto. simpl. now right.
      - exists rest. rewrite <- Hr. reflexivity. }
    destruct (id_gt (id o) (id n)) as [[]|]; simpl; eauto.
    { destruct IH2 as [rest Hr].
      - intros r r' Hr Hr'. apply H; auto.
        apply in_app_or in Hr as [Hr|Hr]; apply in_or_app; simpl; auto.
      - exists rest. rewrite <- Hr. reflexivity. }
    assert (IH : exists rest,
               yields (delta (os ++ more_old) (ns ++ more_new))
               = yields (delta os ns) ++ rest).
    { apply IH3. intros r r' Hr Hr'. apply H; auto.
      apply in_app_or in Hr as [Hr|Hr]; apply in_or_app; simpl; auto. }
    destruct IH as [rest Hr].
    destruct (compare_pair o n) as [[op|]|]; simpl; eauto.
    exists rest. now rewrite Hr.
Qed.

(** C8. When both streams are in non-decreasing id order, so are the rows
    of the entries that [delta] yields, in the order it yields them. And
    when rows are appended to both streams whose ids are all greater than
    every id already there, the entries yielded for the original streams
    are, unchanged, the first entries yielded for the extended streams. *)
Theorem delta_ascending_and_prefix_stable :
  (forall old new,
      ascending old -> ascending new ->
      ascending (map snd (yields (delta old new))))
  /\ (forall old new more_old more_new,
         (forall r r',
             In r (old ++ new) -> In r' (more_old ++ more_new) ->
             id_less (id r) (id r')) ->
         exists rest,
           yields (delta (old ++ more_old) (new ++ more_new))
           = yields (delta old new) ++ rest).
Proof.
  split.
  - intros old new Ho Hn. apply ascending_strong.
    apply delta_strongly_sorted; now apply ascending_strong.
  - intros old new more_old more_new. apply delta_prefix_stable.
Qed.

(** ** The same stream on both sides *)







(** ** Errors *)

Lemma py_cmp_raises a b e : py_cmp a b = Err e -> e = TypeError.
Proof.
  unfold py_cmp.
  destruct (as_number a), (as_number b), a, b; intros H; now inversion H.
Qed.

Lemma py_ge_raises a b e : py_ge a b = Err e -> e = TypeError.
Proof.
  unfold py_ge. destruct (py_cmp a b) as [[[]|]|e'] eqn:C; try discriminate.
  intros H. injection H as <-. exact (py_cmp_raises _ _ _ C).
Qed.

Lemma compare_pair_AssertionError o n :
  compare_pair o n = Err AssertionError <->
  newer o n = true /\ List.length (columns o) <> List.length (columns n).
Proof.
  unfold compare_pair, newer.
  destruct (py_ge _ _) as [[]|e] eqn:G.
  - split; [discriminate|]. intros [? _]. discriminate.
  - destruct (Nat.eqb_spec (List.length (columns o))
                           (List.length (columns n))) as [E|E].
    + split; [discriminate|]. intros [_ ?]. contradiction.
    + split; auto.
  - split; [|intros [? _]; discriminate].
    intros H. injection H as H. subst e.
    apply py_ge_raises in G. discriminate.
Qed.

(** [delta] raises the column-length assertion exactly when its cursors
    come to stand on two rows with the same id of which the new one tests
    as strictly fresher and whose column lists differ in length. *)
Lemma delta_raises_AssertionError_iff old new :
  raised (delta old new) = Some AssertionError <->
  exists o os n ns,
    visits old new (o :: os) (n :: ns)
    /\ id o = id n
    /\ newer o n = true
    /\ List.length (columns o) <> List.length (columns n).
Proof.
  split.
  - cursor_induction old new.
    + intros new. rewrite delta_nil_l, raised_emit_all. discriminate.
    + intros old. rewrite delta_nil_r, raised_emit_all. discriminate.
    + intros o os n ns IH1 IH2 IH3. rewrite delta_cons.
      destruct (id_tests (id o) (id n))
        as [[_ E]|[[_ E]|[(_ & E & E')|(L & E & E')]]]; rewrite E.
      * discriminate.
      * simpl. intros H. destruct (IH1 H) as (o' & os' & n' & ns' & V & P).
        exists o', os', n', ns'. split; auto. now apply visits_after_DEL.
      * rewrite E'. simpl. intros H.
        destruct (IH2 H) as (o' & os' & n' & ns' & V & P).
        exists o', os', n', ns'. split; auto. now apply visits_after_ADD.
      * rewrite E'. destruct (compare_pair o n) as [res|e] eqn:C.
        -- intros H.
           assert (H' : raised (delta os ns) = Some AssertionError)
             by (destruct res; exact H).
           destruct (IH3 H') as (o' & os' & n' & ns' & V & P).
           exists o', os', n', ns'. split; auto.
           now apply (visits_after_pair o os n ns res).
        -- simpl. intros H. injection H as H. subst e.
           apply compare_pair_AssertionError in C.
           exists o, os, n, ns. split; [apply visits_start|]. tauto.
  - intros (o' & os' & n' & ns' & V & Hid & Hnew & Hlen).
    remember (o' :: os') as old' eqn:Eo. remember (n' :: ns') as new' eqn:En.
    induction V as [old new|o os n ns old' new' L V IH
                    |o os n ns old' new' L G V IH
                    |o os n ns res old' new' L G C V IH]; subst.
    + rewrite (delta_same_id _ _ _ _ Hid).
      now rewrite (proj2 (compare_pair_AssertionError o' n') (conj Hnew Hlen)).
    + rewrite delta_cons, L. simpl. auto.
    + rewrite delta_cons, L, G. simpl. auto.
    + rewrite delta_cons, L, G, C. destruct res; simpl; auto.
Qed.

Lemma or_zero_number m :
  null_or_number m ->
  exists f, as_number (or_zero (val m)) = Some f /\ f <> FNaN.
Proof.
  unfold null_or_number, or_zero.
  destruct (val m) as [|z|f|s|t]; simpl; try contradiction.
  - intros _. eexists; split; [reflexivity|discriminate].
  - intros _. destruct (negb (z =? 0)); simpl;
      eexists; split; try reflexivity; discriminate.
  - intros H. destruct f; simpl; try contradiction;
      try (eexists; split; [reflexivity|assumption]).
    destruct (negb (Qeq_bool q 0)); simpl;
      eexists; split; try reflexivity; discriminate.
Qed.

Lemma float_cmp_ordered f g :
  f <> FNaN -> g <> FNaN -> exists c, float_cmp f g = Some c.
Proof. destruct f, g; simpl; try congruence; eauto. Qed.

(** On timestamps that are null or numbers other than NaN the freshness
    test never raises, and its being false is the new row being strictly
    fresher. *)
Lemma newer_iff_py_lt o n :
  null_or_number (modified o) -> null_or_number (modified n) ->
  (exists b, py_ge (or_zero (val (modified o))) (or_zero (val (modified n)))
             = Ok b)
  /\ (newer o n = true <->
      py_lt (or_zero (val (modified o))) (or_zero (val (modified n)))
      = Ok true).
Proof.
  intros Ho Hn.
  destruct (or_zero_number _ Ho) as (f & Ef & Hf).
  destruct (or_zero_number _ Hn) as (g & Eg & Hg).
  destruct (float_cmp_ordered f g Hf Hg) as [c Ec].
  unfold newer, py_ge, py_lt, py_cmp. rewrite Ef, Eg, Ec.
  destruct c; split; eauto; split; congruence.
Qed.

(** With ids that can be ordered across the two streams and timestamps
    that are null or numbers other than NaN, [delta] raises nothing but the
    column-length assertion. *)
Lemma delta_raises_only_AssertionError old new :
  orderable old new ->
  (forall r, In r (old ++ new) -> null_or_number (modified r)) ->
  raised (delta old new) <> Some TypeError.
Proof.
  cursor_induction old new.
  - intros new _ _. rewrite delta_nil_l, raised_emit_all. discriminate.
  - intros old _ _. rewrite delta_nil_r, raised_emit_all. discriminate.
  - intros o os n ns IH1 IH2 IH3 Hord Hnum.
    assert (Hord1 : orderable os (n :: ns))
      by (intros a b Ha Hb; apply Hord; simpl; auto).
    assert (Hord2 : orderable (o :: os) ns)
      by (intros a b Ha Hb; apply Hord; simpl; auto).
    assert (Hord3 : orderable os ns)
      by (intros a b Ha Hb; apply Hord; simpl; auto).
    assert (Hnum1 : forall r, In r (os ++ n :: ns) ->
                              null_or_number (modified r)).
    { intros r Hr. apply Hnum. apply in_app_or in Hr as [Hr|Hr];
        apply in_or_app; simpl; auto. }
    assert (Hnum2 : forall r, In r ((o :: os) ++ ns) ->
                              null_or_number (modified r)).
    { intros r Hr. apply Hnum. apply in_app_or in Hr as [Hr|Hr];
        apply in_or_app; simpl; auto. }
    assert (Hnum3 : forall r, In r (os ++ ns) -> null_or_number (modified r)).
    { intros r Hr. apply Hnum. apply in_app_or in Hr as [Hr|Hr];
        apply in_or_app; simpl; auto. }
    rewrite delta_cons.
    destruct (id_tests (id o) (id n))
      as [[E _]|[[_ E]|[(_ & E & E')|(L & E & E')]]].
    + exfalso. apply (Hord o n); simpl; auto.
    + rewrite E. simpl. auto.
    + rewrite E, E'. simpl. auto.
    + rewrite E, E'.
      destruct (newer_iff_py_lt o n) as [[b Hb] _].
      { apply Hnum. simpl. auto. }
      { apply Hnum. apply in_or_app. simpl. auto. }
      unfold compare_pair. rewrite Hb.
      destruct b; [auto|].
      destruct (Nat.eqb _ _); simpl; [auto|discriminate].
Qed.

Lemma visits_In old new old' new' :
  visits old new old' new' ->
  (forall r, In r old' -> In r old) /\ (forall r, In r new' -> In r new).
Proof.
  induction 1 as [old new|o os n ns old' new' _ _ [IHo IHn]
                  |o os n ns old' new' _ _ _ [IHo IHn]
                  |o os n ns res old' new' _ _ _ _ [IHo IHn]];
    split; intros r Hr; auto; right; auto.
Qed.

(** X3. On streams whose ids can be ordered across the two sides and whose
    timestamps are null or numbers other than NaN, [delta] raises the
    column-length assertion exactly when its cursors come to stand on two
    rows with the same id of which the new one is strictly fresher and
    whose column lists differ in length, and otherwise ends normally. *)
Lemma delta_errors_on_numeric_timestamps old new :
  orderable old new ->
  (forall r, In r (old ++ new) -> null_or_number (modified r)) ->
  (raised (delta old new) = Some AssertionError <->
   exists o os n ns,
     visits old new (o :: os) (n :: ns)
     /\ id o = id n
     /\ py_lt (or_zero (val (modified o))) (or_zero (val (modified n)))
        = Ok true
     /\ List.length (columns o) <> List.length (columns n))
  /\ (raised (delta old new) <> Some AssertionError ->
      raised (delta old new) = None).
Proof.
  intros Hord Hnum. split.
  - rewrite delta_raises_AssertionError_iff.
    split; intros (o & os & n & ns & V & Hid & Hnew & Hlen);
      exists o, os, n, ns; repeat split; auto;
      destruct (visits_In _ _ _ _ V) as [Vo Vn];
      apply (newer_iff_py_lt o n); auto;
      apply Hnum, in_or_app; [left|right|left|right];
      (apply Vo || apply Vn); simpl; auto.
  - intros H. pose proof (delta_raises_only_AssertionError old new Hord Hnum).
    destruct (raised (delta old new)) as [[]|]; congruence.
Qed.

(** C5. The claim is that the column-length assertion is the only error
    and that rows without timestamp never cause one. On the one-row
    streams [null_stamped] and [datetime_stamped], whose column lists have
    the same length, [delta] yields nothing and raises [TypeError]: the
    freshness test compares the integer zero with a [datetime]. *)
Theorem delta_null_against_datetime_raises :
  List.length (columns null_stamped) = List.length (columns datetime_stamped)
  /\ delta [null_stamped] [datetime_stamped] = Raise TypeError.
Proof. split; reflexivity. Qed.

(** ** One entry per orphan and per fresher pair *)

#[local] Instance row_lt_trans : Transitive row_lt.
Proof. intros a b c. apply id_cmp_lt_trans. Qed.

(** C4, as stated, fails: one same-id pair whose old row is as fresh as
    the new one, no orphan, and nothing is yielded. *)
Lemma delta_unchanged_pair_counterexample :
  ~ (strictly_ascending [unchanged_row] ->
     strictly_ascending [unchanged_row] ->
     one_entry_per_pair_and_orphan [unchanged_row] [unchanged_row]).
Proof.
  intros H. unfold one_entry_per_pair_and_orphan in H.
  discriminate H; repeat constructor.
Qed.

Lemma id_eqb_eq a b : id_eqb a b = true <-> a = b.
Proof.
  unfold id_eqb. split.
  - destruct (id_cmp a b) as [[]|] eqn:E; try discriminate.
    intros _. now apply id_cmp_eq.
  - intros <-. now rewrite id_cmp_refl.
Qed.

Lemma id_eqb_less a b : id_less a b -> id_eqb a b = false /\ id_eqb b a = false.
Proof.
  intros L. split; apply not_true_is_false; rewrite id_eqb_eq; intros E;
    subst; now apply id_less_irrefl in L.
Qed.

Lemma has_id_above i rows :
  (forall r, In r rows -> id_less i (id r)) -> has_id i rows = false.
Proof.
  intros H. unfold has_id. apply not_true_is_false. intros E.
  apply existsb_exists in E as (r & Hr & E).
  apply H in Hr. apply id_eqb_less in Hr as [_ Hr]. congruence.
Qed.

Lemma refreshes_above old n :
  (forall o, In o old -> id_less (id n) (id o)) -> refreshes old n = false.
Proof.
  intros H. unfold refreshes. apply not_true_is_false. intros E.
  apply existsb_exists in E as (o & Ho & E).
  apply andb_true_iff in E as [E _].
  apply H in Ho. apply id_eqb_less in Ho as [_ Ho]. congruence.
Qed.

Lemma strictly_ascending_inv r rows :
  StronglySorted row_lt (r :: rows) ->
  StronglySorted row_lt rows
  /\ forall x, In x rows -> id_less (id r) (id x).
Proof.
  intros H. apply StronglySorted_inv in H as [H F].
  split; auto. now rewrite Forall_forall in F.
Qed.

Lemma compare_pair_newer o n res :
  compare_pair o n = Ok res ->
  match res with Some _ => newer o n = true | None => newer o n = false end.
Proof.
  unfold compare_pair, newer.
  destruct (py_ge _ _) as [[]|]; try discriminate.
  - now intros [= <-].
  - destruct (Nat.eqb _ _); try discriminate. now intros [= <-].
Qed.

Lemma added_cons op r out :
  added ((op, r) :: out) =
  match op with ADD => r :: added out | _ => added out end.
Proof. now destruct op. Qed.

Lemma changed_cons op r out :
  changed ((op, r) :: out) =
  match op with MOD | UPD => r :: changed out | _ => changed out end.
Proof. now destruct op. Qed.

Lemma entries_of_one_op (keep : entry -> bool) op rows :
  map snd (filter keep (map (pair op) rows)) =
  filter (fun r => keep (op, r)) rows.
Proof.
  induction rows as [|r rows IH]; simpl; auto.
  destruct (keep (op, r)); simpl; now rewrite IH.
Qed.

Lemma filter_none {A : Type} (l : list A) : filter (fun _ => false) l = [].
Proof. induction l; simpl; congruence. Qed.

Lemma orphans_skip_other rows o others :
  (forall x, In x rows -> id_eqb (id o) (id x) = false) ->
  orphans rows (o :: others) = orphans rows others.
Proof.
  intros H. apply filter_ext_in. intros x Hx. simpl. now rewrite (H x Hx).
Qed.

Lemma refreshed_skip_old o old new :
  (forall x, In x new -> id_eqb (id o) (id x) = false) ->
  refreshed (o :: old) new = refreshed old new.
Proof.
  intros H. apply filter_ext_in. intros x Hx. simpl. now rewrite (H x Hx).
Qed.

Lemma orphans_cons r rows others :
  orphans (r :: rows) others =
  if has_id (id r) others then orphans rows others
  else r :: orphans rows others.
Proof. unfold orphans. simpl. now destruct (has_id (id r) others). Qed.

Lemma refreshed_cons old n ns :
  refreshed old (n :: ns) =
  if refreshes old n then n :: refreshed old ns else refreshed old ns.
Proof. reflexivity. Qed.

Lemma refreshes_cons o os n :
  refreshes (o :: os) n =
  (id_eqb (id o) (id n) && newer o n) || refreshes os n.
Proof. reflexivity. Qed.

Arguments orphans : simpl never.
Arguments refreshed : simpl never.
Arguments refreshes : simpl never.

Lemma delta_entries_strict old new :
  StronglySorted row_lt old -> StronglySorted row_lt new ->
  orderable old new -> well_matched old new ->
  raised (delta old new) = None
  /\ deleted (yields (delta old new)) = orphans old new
  /\ added (yields (delta old new)) = orphans new old
  /\ changed (yields (delta old new)) = refreshed old new.
Proof.
  cursor_induction old new.
  - intros new _ _ _ _.
    rewrite delta_nil_l, raised_emit_all, yields_emit_all.
    unfold deleted, added, changed, orphans, refreshed.
    rewrite !entries_of_one_op.
    repeat split; try reflexivity. exact (filter_none new).
  - intros old _ _ _ _.
    rewrite delta_nil_r, raised_emit_all, yields_emit_all.
    unfold deleted, added, changed, orphans, refreshed.
    rewrite !entries_of_one_op.
    repeat split; try reflexivity; exact (filter_none old).
  - intros o os n ns IH1 IH2 IH3 Ho Hn Hord Hwm.
    pose proof (strictly_ascending_inv _ _ Ho) as [Hos Fo].
    pose proof (strictly_ascending_inv _ _ Hn) as [Hns Fn].
    assert (Hord1 : orderable os (n :: ns))
      by (intros a b Ha Hb; apply Hord; simpl; auto).
    assert (Hord2 : orderable (o :: os) ns)
      by (intros a b Ha Hb; apply Hord; simpl; auto).
    assert (Hord3 : orderable os ns)
      by (intros a b Ha Hb; apply Hord; simpl; auto).
    assert (Hwm1 : well_matched os (n :: ns))
      by (intros a b Ha Hb; apply Hwm; simpl; auto).
    assert (Hwm2 : well_matched (o :: os) ns)
      by (intros a b Ha Hb; apply Hwm; simpl; auto).
    assert (Hwm3 : well_matched os ns)
      by (intros a b Ha Hb; apply Hwm; simpl; auto).
    specialize (IH1 Hos Hn Hord1 Hwm1) as (R1 & D1 & A1 & C1).
    specialize (IH2 Ho Hns Hord2 Hwm2) as (R2 & D2 & A2 & C2).
    specialize (IH3 Hos Hns Hord3 Hwm3) as (R3 & D3 & A3 & C3).
    rewrite delta_cons.
    destruct (id_tests (id o) (id n))
      as [[E _]|[[L E]|[(L & E & E')|(L & E & E')]]].
    + exfalso. apply (Hord o n); simpl; auto.
    + (* the old row is an orphan *)
      rewrite E. simpl.
      rewrite deleted_cons, added_cons, changed_cons, D1, A1, C1.
      assert (Habove : forall x, In x (n :: ns) -> id_less (id o) (id x)).
      { intros x [<-|Hx]; [exact L|].
        exact (id_cmp_lt_trans _ _ _ L (Fn x Hx)). }
      rewrite (orphans_cons o os), (has_id_above _ _ Habove).
      rewrite (orphans_skip_other (n :: ns) o os), refreshed_skip_old; auto;
        intros x Hx; exact (proj1 (id_eqb_less _ _ (Habove x Hx))).
    + (* the new row is an orphan *)
      rewrite E, E'. simpl.
      rewrite deleted_cons, added_cons, changed_cons, D2, A2, C2.
      assert (Habove : forall x, In x (o :: os) -> id_less (id n) (id x)).
      { intros x [<-|Hx]; [exact L|].
        exact (id_cmp_lt_trans _ _ _ L (Fo x Hx)). }
      rewrite (orphans_cons n ns), (has_id_above _ _ Habove).
      rewrite (orphans_skip_other (o :: os) n ns)
        by (intros x Hx; exact (proj1 (id_eqb_less _ _ (Habove x Hx)))).
      now rewrite refreshed_cons, (refreshes_above _ _ Habove).
    + (* a same-id pair *)
      rewrite E, E'.
      assert (Eon : id_eqb (id o) (id n) = true) by now apply id_eqb_eq.
      assert (Eno : id_eqb (id n) (id o) = true) by now apply id_eqb_eq.
      assert (Fo' : forall x, In x os -> id_less (id n) (id x))
        by (intros x Hx; rewrite <- L; auto).
      assert (Fn' : forall x, In x ns -> id_less (id o) (id x))
        by (intros x Hx; rewrite L; auto).
      assert (Horph_old : orphans (o :: os) (n :: ns) = orphans os ns).
      { rewrite orphans_cons. simpl. rewrite Eno. simpl.
        apply orphans_skip_other. intros x Hx. exact (proj1 (id_eqb_less _ _ (Fo' x Hx))). }
      assert (Horph_new : orphans (n :: ns) (o :: os) = orphans ns os).
      { rewrite orphans_cons. simpl. rewrite Eon. simpl.
        apply orphans_skip_other. intros x Hx. exact (proj1 (id_eqb_less _ _ (Fn' x Hx))). }
      assert (Href : refreshed (o :: os) (n :: ns) =
                     if newer o n then n :: refreshed os ns
                     else refreshed os ns).
      { rewrite refreshed_cons, refreshes_cons.
        rewrite Eon, (refreshes_above _ _ Fo'), orb_false_r. simpl.
        rewrite refreshed_skip_old; auto.
        intros x Hx. exact (proj1 (id_eqb_less _ _ (Fn' x Hx))). }
      rewrite Horph_old, Horph_new, Href.
      destruct (Hwm o n) as [res Hres]; [simpl; auto ..|].
      rewrite Hres. pose proof (compare_pair_newer _ _ _ Hres) as Hnew.
      destruct res as [op|]; rewrite Hnew; [|auto].
      simpl. rewrite deleted_cons, added_cons, changed_cons.
      destruct (compare_pair_not_DEL _ _ _ Hres); subst op;
        rewrite C3; auto.
Qed.

Lemma strictly_ascending_strong rows :
  strictly_ascending rows -> StronglySorted row_lt rows.
Proof. apply Sorted_StronglySorted, row_lt_trans. Qed.

(** C4, amended. For two streams in strictly increasing id order whose
    ids can be ordered across the streams and whose same-id pairs can be
    compared, [delta] ends normally and yields: one [DEL] for each old row
    whose id is not in the new stream and no other [DEL]; one [ADD] for
    each new row whose id is not in the old stream and no other [ADD]; one
    [MOD] or [UPD] for each same-id pair whose new row is strictly fresher,
    carrying that new row, and none for any other pair. So it yields one
    entry per orphaned row and one per same-id pair with a strictly fresher
    new row. *)
Theorem delta_one_entry_per_orphan_and_fresher_pair old new :
  strictly_ascending old -> strictly_ascending new ->
  orderable old new -> well_matched old new ->
  raised (delta old new) = None
  /\ deleted (yields (delta old new)) = orphans old new
  /\ added (yields (delta old new)) = orphans new old
  /\ changed (yields (delta old new)) = refreshed old new
  /\ List.length (yields (delta old new))
     = (List.length (refreshed old new)
        + List.length (orphans old new) + List.length (orphans new old))%nat.
Proof.
  intros Ho Hn Hord Hwm.
  apply strictly_ascending_strong in Ho, Hn.
  destruct (delta_entries_strict old new Ho Hn Hord Hwm) as (R & D & A & C).
  repeat split; auto.
  rewrite <- D, <- A, <- C.
  unfold deleted, added, changed. rewrite !length_map.
  generalize (yields (delta old new)). intros out.
  induction out as [|[[] r] out IH]; simpl; lia.
Qed.

(** ** The operation tags *)

(** X11. The four operation tags have the values 1 to 4, no two tags share
    a value, and [!=] on tags holds exactly for different tags. *)
Theorem Op_values_distinct :
  (forall a, 1 <= Op_value a <= 4)
  /\ (forall a b, Op_value a = Op_value b -> a = b)
  /\ (forall a b, Op_ne a b = true <-> a <> b).
Proof.
  split; [intros []; simpl; lia|].
  split; [intros [] []; simpl; congruence|].
  intros [] []; unfold Op_ne; simpl; split; congruence.
Qed.

(** ** What delta_partial yields *)

(** X1. Whatever the two streams are, [delta_partial] yields no [DEL]
    entry, the rows it yields are rows of the new stream, each position
    taken at most once and in stream order, so it yields at most as many
    entries as the new stream has rows; with an empty new stream it yields
    nothing and ends normally. *)
Theorem delta_partial_rows_from_new old new :
  (forall r, ~ In (DEL, r) (yields (delta_partial old new)))
  /\ subsequence (map snd (yields (delta_partial old new))) new
  /\ (List.length (yields (delta_partial old new)) <= List.length new)%nat
  /\ delta_partial old [] = Stop.
Proof.
  assert (E : yields (delta_partial old new)
              = filter not_DEL (yields (delta old new))).
  { unfold delta_partial, yield_from.
    rewrite gen_then_Stop, yields_gen_filter.
    apply filter_ext. intros [[] r]; reflexivity. }
  destruct (delta_deleted_kept old new) as [_ HK]. unfold kept in HK.
  rewrite E. repeat split.
  - intros r Hin. apply filter_In in Hin as [_ Hin]. discriminate.
  - exact HK.
  - apply subsequence_length in HK. now rewrite length_map in HK.
  - clear E HK.
    unfold delta_partial, yield_from. rewrite gen_then_Stop, delta_nil_r.
    induction old as [|o os IH]; simpl; auto.
Qed.

(** ** Row counts *)

Arguments deleted : simpl never.
Arguments added : simpl never.
Arguments changed : simpl never.

Lemma deleted_added_of_one_op op rows :
  List.length (deleted (map (pair op) rows))
  = match op with DEL => List.length rows | _ => 0%nat end
  /\ List.length (added (map (pair op) rows))
     = match op with ADD => List.length rows | _ => 0%nat end.
Proof.
  induction rows as [|r rows [IH1 IH2]]; simpl.
  - now destruct op.
  - rewrite deleted_cons, added_cons. destruct op; simpl; auto.
Qed.

(** X4. When [delta] ends normally, the number of rows it deletes and the
    number it adds balance the lengths of the two streams: the old length
    less the [DEL] entries plus the [ADD] entries is the new length. *)
Theorem delta_row_count_balance old new :
  raised (delta old new) = None ->
  (List.length (deleted (yields (delta old new))) + List.length new
   = List.length (added (yields (delta old new))) + List.length old)%nat.
Proof.
  cursor_induction old new.
  - intros new _. rewrite delta_nil_l, yields_emit_all.
    destruct (deleted_added_of_one_op ADD new) as [-> ->]. simpl. lia.
  - intros old _. rewrite delta_nil_r, yields_emit_all.
    destruct (deleted_added_of_one_op DEL old) as [-> ->]. simpl. lia.
  - intros o os n ns IH1 IH2 IH3. rewrite delta_cons.
    destruct (id_lt (id o) (id n)) as [[]|]; cbn [raised yields];
      try discriminate.
    { intros H. rewrite deleted_cons, added_cons. specialize (IH1 H).
      cbn [List.length] in *. lia. }
    destruct (id_gt (id o) (id n)) as [[]|]; cbn [raised yields];
      try discriminate.
    { intros H. rewrite deleted_cons, added_cons. specialize (IH2 H).
      cbn [List.length] in *. lia. }
    destruct (compare_pair o n) as [[op|]|] eqn:C; cbn [raised yields];
      try discriminate; intros H; specialize (IH3 H).
    + rewrite deleted_cons, added_cons.
      destruct (compare_pair_not_DEL _ _ _ C); subst op;
        cbn [List.length] in *; lia.
    + cbn [List.length] in *. lia.
Qed.

(** ** The comparison the other way round *)

Lemma id_lt_gt_swap a b : id_lt b a = id_gt a b /\ id_gt b a = id_lt a b.
Proof.
  unfold id_lt, id_gt. rewrite (id_cmp_antisym a b).
  destruct (id_cmp a b) as [[]|]; simpl; auto.
Qed.

(** X9. When [delta] ends normally in both directions, comparing the
    streams the other way round deletes exactly the rows that this
    direction adds, and adds exactly the rows that this direction deletes,
    in the same order. *)
Theorem delta_reverse_swaps_DEL_and_ADD old new :
  raised (delta old new) = None ->
  raised (delta new old) = None ->
  deleted (yields (delta old new)) = added (yields (delta new old))
  /\ added (yields (delta old new)) = deleted (yields (delta new old)).
Proof.
  cursor_induction old new.
  - intros new _ _. rewrite delta_nil_l, delta_nil_r.
    induction new as [|n ns [IH1 IH2]]; simpl; auto.
    rewrite !deleted_cons, !added_cons. split; congruence.
  - intros old _ _. rewrite delta_nil_l, delta_nil_r.
    induction old as [|o os [IH1 IH2]]; simpl; auto.
    rewrite !deleted_cons, !added_cons. split; congruence.
  - intros o os n ns IH1 IH2 IH3. rewrite !delta_cons.
    destruct (id_lt_gt_swap (id o) (id n)) as [-> ->].
    destruct (id_lt (id o) (id n)) as [[]|] eqn:L; cbn [raised yields]; try discriminate.
    { destruct (id_gt (id o) (id n)) as [[]|] eqn:G;
        cbn [raised yields]; try discriminate.
      - exfalso. revert L G. unfold id_lt, id_gt.
        destruct (id_cmp (id o) (id n)) as [[]|]; discriminate.
      - intros H1 H2. rewrite !deleted_cons, !added_cons.
        destruct (IH1 H1 H2) as [-> ->]. auto. }
    destruct (id_gt (id o) (id n)) as [[]|] eqn:G; cbn [raised yields]; try discriminate.
    { intros H1 H2. rewrite !deleted_cons, !added_cons.
      destruct (IH2 H1 H2) as [-> ->]. auto. }
    destruct (compare_pair o n) as [[op|]|] eqn:C; cbn [raised yields]; try discriminate;
      destruct (compare_pair n o) as [[op'|]|] eqn:C';
      cbn [raised yields]; try discriminate; intros H1 H2;
      rewrite ?deleted_cons, ?added_cons;
      repeat match goal with
             | H : compare_pair _ _ = Ok (Some _) |- _ =>
                 destruct (compare_pair_not_DEL _ _ _ H); subst; clear H
             end; auto.
Qed.

(** ** Where exceptions come from *)

Lemma compare_pair_TypeError o n :
  compare_pair o n = Err TypeError <->
  py_cmp (or_zero (val (modified o))) (or_zero (val (modified n)))
  = Err TypeError.
Proof.
  unfold compare_pair, py_ge.
  destruct (py_cmp _ _) as [[[]|]|e];
    try (destruct (Nat.eqb _ _)); split; intros H; try discriminate H;
    injection H as ->; reflexivity.
Qed.

Lemma delta_raises_TypeError_iff old new :
  raised (delta old new) = Some TypeError <->
  exists o os n ns,
    visits old new (o :: os) (n :: ns) /\ unorderable_pair o n.
Proof.
  unfold unorderable_pair. split.
  - cursor_induction old new.
    + intros new. rewrite delta_nil_l, raised_emit_all. discriminate.
    + intros old. rewrite delta_nil_r, raised_emit_all. discriminate.
    + intros o os n ns IH1 IH2 IH3. rewrite delta_cons.
      destruct (id_tests (id o) (id n))
        as [[N E]|[[_ E]|[(_ & E & E')|(L & E & E')]]]; rewrite E.
      * intros _. exists o, os, n, ns. split; [apply visits_start|auto].
      * cbn [raised]. intros H.
        destruct (IH1 H) as (o' & os' & n' & ns' & V & P).
        exists o', os', n', ns'. split; auto. now apply visits_after_DEL.
      * rewrite E'. cbn [raised]. intros H.
        destruct (IH2 H) as (o' & os' & n' & ns' & V & P).
        exists o', os', n', ns'. split; auto. now apply visits_after_ADD.
      * rewrite E'. destruct (compare_pair o n) as [res|e] eqn:C.
        -- intros H.
           assert (H' : raised (delta os ns) = Some TypeError)
             by (destruct res; exact H).
           destruct (IH3 H') as (o' & os' & n' & ns' & V & P).
           exists o', os', n', ns'. split; auto.
           now apply (visits_after_pair o os n ns res).
        -- cbn [raised]. intros H. injection H as H. subst e.
           apply compare_pair_TypeError in C.
           exists o, os, n, ns. split; [apply visits_start|auto].
  - intros (o' & os' & n' & ns' & V & P).
    remember (o' :: os') as old' eqn:Eo. remember (n' :: ns') as new' eqn:En.
    induction V as [old new|o os n ns old' new' L V IH
                    |o os n ns old' new' L G V IH
                    |o os n ns res old' new' L G C V IH]; subst.
    + rewrite delta_cons. destruct P as [N|[Hid C]].
      * unfold id_lt. now rewrite N.
      * unfold id_lt, id_gt. rewrite Hid, id_cmp_refl.
        now rewrite (proj2 (compare_pair_TypeError o' n') C).
    + rewrite delta_cons, L. cbn [raised]. auto.
    + rewrite delta_cons, L, G. cbn [raised]. auto.
    + rewrite delta_cons, L, G, C. destruct res; cbn [raised]; auto.
Qed.

(** X2. [delta] raises the column-length assertion exactly when its
    cursors come to stand on two rows with the same id of which the new one
    tests as strictly fresher and whose column lists differ in length; it
    raises [TypeError] exactly when its cursors come to stand on two rows
    whose ids cannot be ordered, or that have the same id and timestamps
    that the freshness test cannot order; in every other case it ends
    normally. *)
Theorem delta_raises_exactly_at_offending_pair old new :
  (raised (delta old new) = Some AssertionError <->
   exists o os n ns,
     visits old new (o :: os) (n :: ns)
     /\ id o = id n
     /\ newer o n = true
     /\ List.length (columns o) <> List.length (columns n))
  /\ (raised (delta old new) = Some TypeError <->
      exists o os n ns,
        visits old new (o :: os) (n :: ns) /\ unorderable_pair o n)
  /\ (raised (delta old new) = None <->
      forall o os n ns,
        visits old new (o :: os) (n :: ns) ->
        comparable (id o) (id n)
        /\ (id o = id n -> exists res, compare_pair o n = Ok res)).
Proof.
  pose proof (delta_raises_AssertionError_iff old new) as HA.
  pose proof (delta_raises_TypeError_iff old new) as HT.
  split; [exact HA|]. split; [exact HT|].
  split.
  - intros HN o os n ns V. split.
    + intros N. rewrite (proj2 HT) in HN; [discriminate|].
      exists o, os, n, ns. split; auto. now left.
    + intros Hid. destruct (compare_pair o n) as [res|[]] eqn:C; eauto.
      * apply compare_pair_AssertionError in C as [Hn Hl].
        rewrite (proj2 HA) in HN; [discriminate|].
        exists o, os, n, ns. auto.
      * apply compare_pair_TypeError in C.
        rewrite (proj2 HT) in HN; [discriminate|].
        exists o, os, n, ns. split; auto. now right.
  - intros H. destruct (raised (delta old new)) as [[]|] eqn:R; auto.
    + destruct (proj1 HA eq_refl) as (o & os & n & ns & V & Hid & Hn & Hl).
      destruct (H o os n ns V) as [_ Hm]. destruct (Hm Hid) as [res C].
      assert (C' : compare_pair o n = Err AssertionError)
        by (apply compare_pair_AssertionError; auto).
      congruence.
    + destruct (proj1 HT eq_refl) as (o & os & n & ns & V & [N|[Hid C]]).
      * destruct (H o os n ns V) as [Hc _]. contradiction.
      * destruct (H o os n ns V) as [_ Hm]. destruct (Hm Hid) as [res C'].
        apply compare_pair_TypeError in C. congruence.
Qed.

(** ** Streams made of two id ranges *)

Lemma emit_all_cons op r rows :
  emit_all op (r :: rows) = Yield (op, r) (emit_all op rows).
Proof. reflexivity. Qed.

Lemma delta_low_new_then more_old more_new : forall new,
  (forall r r', In r new -> In r' more_old -> id_less (id r) (id r')) ->
  delta more_old (new ++ more_new)
  = gen_then (emit_all ADD new) (delta more_old more_new).
Proof.
  induction new as [|n ns IH]; intros H; [reflexivity|].
  rewrite <- app_comm_cons, emit_all_cons. cbn [gen_then].
  rewrite <- IH by (intros; apply H; simpl; auto).
  destruct more_old as [|h t].
  - now rewrite !delta_nil_l.
  - rewrite delta_cons.
    assert (L : id_less (id n) (id h)) by (apply H; simpl; auto).
    destruct (id_tests (id h) (id n))
      as [[E _]|[[L' _]|[(_ & E & E')|(E & _)]]].
    + unfold id_less in L.
      rewrite (id_cmp_antisym (id h) (id n)), E in L. discriminate.
    + exfalso. apply (id_less_irrefl (id n)).
      eapply id_cmp_lt_trans; eauto.
    + now rewrite E, E'.
    + rewrite E in L. now apply id_less_irrefl in L.
Qed.

Lemma delta_low_old_then more_old more_new : forall old,
  (forall r r', In r old -> In r' more_new -> id_less (id r) (id r')) ->
  delta (old ++ more_old) more_new
  = gen_then (emit_all DEL old) (delta more_old more_new).
Proof.
  induction old as [|o os IH]; intros H; [reflexivity|].
  rewrite <- app_comm_cons, emit_all_cons. cbn [gen_then].
  rewrite <- IH by (intros; apply H; simpl; auto).
  destruct more_new as [|h t].
  - now rewrite !delta_nil_r.
  - rewrite delta_cons.
    assert (L : id_less (id o) (id h)) by (apply H; simpl; auto).
    destruct (id_tests (id o) (id h))
      as [[E _]|[[_ E]|[(L' & _)|(E & _)]]].
    + unfold id_less in L. rewrite E in L. discriminate.
    + now rewrite E.
    + exfalso. apply (id_less_irrefl (id o)).
      eapply id_cmp_lt_trans; eauto.
    + rewrite E in L. now apply id_less_irrefl in L.
Qed.

(** X6. When every id of [old1] and [new1] is less than every id of [old2]
    and [new2], comparing the concatenated streams is comparing the first
    parts and then the second parts: [delta] yields the entries of the
    first comparison followed by those of the second, and ends as the
    first does if that raises, else as the second does. *)
Theorem delta_of_two_id_ranges old1 new1 old2 new2 :
  (forall r r', In r (old1 ++ new1) -> In r' (old2 ++ new2) ->
     id_less (id r) (id r')) ->
  delta (old1 ++ old2) (new1 ++ new2)
  = gen_then (delta old1 new1) (delta old2 new2).
Proof.
  cursor_induction old1 new1.
  - intros new1 H. rewrite delta_nil_l. apply delta_low_new_then.
    intros r r' Hr Hr'. apply H; simpl; auto using in_or_app.
  - intros old1 H. rewrite delta_nil_r, app_nil_l. apply delta_low_old_then.
    intros r r' Hr Hr'. apply H; rewrite ?app_nil_r; auto using in_or_app.
  - intros o os n ns IH1 IH2 IH3 H.
    rewrite <- !app_comm_cons, !delta_cons.
    destruct (id_lt (id o) (id n)) as [[]|]; cbn [gen_then]; auto.
    { rewrite <- IH1; [reflexivity|].
      intros r r' Hr Hr'. apply H; auto. simpl. now right. }
    destruct (id_gt (id o) (id n)) as [[]|]; cbn [gen_then]; auto.
    { rewrite <- IH2; [reflexivity|].
      intros r r' Hr Hr'. apply H; auto.
      apply in_app_or in Hr as [Hr|Hr]; apply in_or_app; simpl; auto. }
    rewrite IH3.
    + destruct (compare_pair o n) as [[op|]|]; reflexivity.
    + intros r r' Hr Hr'. apply H; auto.
      apply in_app_or in Hr as [Hr|Hr]; apply in_or_app; simpl; auto.
Qed.

(** ** Applying the entries *)

Lemma has_id_In i rows : has_id i rows = true <-> In i (ids rows).
Proof.
  unfold has_id, ids. rewrite existsb_exists, in_map_iff.
  split; intros (r & H1 & H2).
  - apply id_eqb_eq in H2. eauto.
  - exists r. split; auto. now apply id_eqb_eq.
Qed.

Lemma ids_orphans i rows others :
  In i (ids (orphans rows others)) <->
  In i (ids rows) /\ ~ In i (ids others).
Proof.
  unfold ids at 1 2, orphans. rewrite !in_map_iff. split.
  - intros (r & <- & Hr). apply filter_In in Hr as [Hr Hn].
    split; [eauto|]. rewrite <- has_id_In.
    destruct (has_id (id r) others); [discriminate|congruence].
  - intros [(r & <- & Hr) Hn]. exists r. split; auto.
    apply filter_In. split; auto. rewrite <- has_id_In in Hn.
    now destruct (has_id (id r) others).
Qed.

Lemma strictly_ascending_unique_id rows :
  StronglySorted row_lt rows ->
  forall a b, In a rows -> In b rows -> id a = id b -> a = b.
Proof.
  induction 1 as [|r rows Hs IH Hf]; intros a b Ha Hb E; [destruct Ha|].
  rewrite Forall_forall in Hf.
  destruct Ha as [<-|Ha], Hb as [<-|Hb]; auto.
  - apply Hf in Hb. unfold row_lt in Hb. rewrite E in Hb.
    now apply id_less_irrefl in Hb.
  - apply Hf in Ha. unfold row_lt in Ha. rewrite <- E in Ha.
    now apply id_less_irrefl in Ha.
Qed.

(** X5. For two streams in strictly increasing id order whose ids can be
    ordered across the streams and whose same-id pairs can be compared,
    the entries of [delta] bring the old ids to the new ids: an id is in
    the new stream exactly when it is added, or is in the old stream and
    not deleted. And a new row whose id is in the old stream is yielded as
    [MOD] or [UPD] exactly when it tests as strictly fresher than the old
    row with that id. *)
Theorem delta_entries_bring_old_to_new old new :
  strictly_ascending old -> strictly_ascending new ->
  orderable old new -> well_matched old new ->
  (forall i,
      In i (ids new) <->
      In i (ids (added (yields (delta old new))))
      \/ (In i (ids old)
          /\ ~ In i (ids (deleted (yields (delta old new))))))
  /\ (forall o n,
         In o old -> In n new -> id o = id n ->
         (In n (changed (yields (delta old new))) <-> newer o n = true)).
Proof.
  intros Ho Hn Hord Hwm.
  apply strictly_ascending_strong in Ho, Hn.
  destruct (delta_entries_strict old new Ho Hn Hord Hwm) as (_ & D & A & C).
  rewrite D, A, C. split.
  - intros i. rewrite !ids_orphans, <- !has_id_In.
    destruct (has_id i new), (has_id i old); intuition congruence.
  - intros o n Io In_ E. unfold refreshed. rewrite filter_In.
    unfold refreshes. rewrite existsb_exists. split.
    + intros (_ & o' & Io' & H). apply andb_true_iff in H as [H1 H2].
      apply id_eqb_eq in H1.
      assert (o' = o)
        by (apply (strictly_ascending_unique_id old Ho); congruence).
      now subst.
    + intros H. split; auto. exists o. split; auto.
      apply andb_true_iff. split; auto. now apply id_eqb_eq.
Qed.

(** ** Rows without timestamp *)

Lemma Qcompare_inject_Z a b : Qcompare (inject_Z a) (inject_Z b) = Z.compare a b.
Proof. unfold Qcompare. simpl. now rewrite !Z.mul_1_r. Qed.

Lemma Qcompare_zero_of_not_negative q : (0 <= q)%Q -> Qcompare q 0 <> Lt.
Proof.
  intros H. pose proof (proj1 (Qle_alt 0 q) H) as H'.
  rewrite <- Qcompare_antisym.
  destruct (Qcompare 0 q); simpl; congruence.
Qed.

Lemma Qcompare_zero_positive q :
  (0 < q)%Q -> Qeq_bool q 0 = false /\ Qcompare 0 q = Lt.
Proof.
  intros H. split; [|exact (proj1 (Qlt_alt 0 q) H)].
  destruct (Qeq_bool q 0) eqn:E; auto.
  apply Qeq_bool_iff in E. apply Qlt_not_eq in H.
  exfalso. apply H. now symmetry.
Qed.

Lemma py_ge_zero_of_not_negative m :
  null_or_not_negative m -> py_ge (or_zero (val m)) (VInt 0) = Ok true.
Proof.
  unfold null_or_not_negative, or_zero.
  destruct (val m) as [|z|[| |q|]|s|t]; cbv beta iota;
    try contradiction; intros H.
  - reflexivity.
  - cbn [truthy]. destruct (Z.eqb_spec z 0) as [->|Hne]; [reflexivity|].
    unfold py_ge, py_cmp. cbn [negb as_number float_cmp].
    rewrite Qcompare_inject_Z.
    destruct (Z.compare_spec z 0); auto; lia.
  - cbn [truthy]. destruct (Qeq_bool q 0); [reflexivity|].
    unfold py_ge, py_cmp. cbn [negb as_number float_cmp].
    change (inject_Z 0) with 0%Q.
    pose proof (Qcompare_zero_of_not_negative q H).
    destruct (Qcompare q 0); auto. congruence.
  - reflexivity.
Qed.

Lemma py_ge_zero_positive m :
  positive_number m -> py_ge (VInt 0) (or_zero (val m)) = Ok false.
Proof.
  unfold positive_number, or_zero.
  destruct (val m) as [|z|[| |q|]|s|t]; cbv beta iota;
    try contradiction; intros H.
  - cbn [truthy]. destruct (Z.eqb_spec z 0) as [->|Hne]; [lia|].
    unfold py_ge, py_cmp. cbn [negb as_number float_cmp].
    rewrite Qcompare_inject_Z.
    destruct (Z.compare_spec 0 z); auto; lia.
  - cbn [truthy]. destruct (Qcompare_zero_positive q H) as [-> L].
    unfold py_ge, py_cmp. cbn [negb as_number float_cmp].
    change (inject_Z 0) with 0%Q. now rewrite L.
  - reflexivity.
Qed.

Lemma or_zero_falsy v : truthy v = false -> or_zero v = VInt 0.
Proof. unfold or_zero. now intros ->. Qed.

(** X7. A new row without timestamp (null, zero, or any other false
    value) never supersedes an old row with the same id whose timestamp is
    null or not negative: nothing is yielded for the pair, whatever the
    columns. Conversely an old row without timestamp is always superseded
    by a new row with the same id, a timestamp above zero and as many
    columns: exactly one entry is yielded for the pair, [UPD] or [MOD],
    carrying the new row. *)
Theorem delta_rows_without_timestamp :
  (forall o n old new,
      id o = id n ->
      truthy (val (modified n)) = false ->
      null_or_not_negative (modified o) ->
      delta (o :: old) (n :: new) = delta old new)
  /\ (forall o n old new,
         id o = id n ->
         truthy (val (modified o)) = false ->
         positive_number (modified n) ->
         List.length (columns o) = List.length (columns n) ->
         exists op,
           delta (o :: old) (n :: new) = Yield (op, n) (delta old new)
           /\ (op = UPD \/ op = MOD)).
Proof.
  split.
  - intros o n old new Hid Hn Ho.
    rewrite (delta_same_id _ _ _ _ Hid). unfold compare_pair.
    now rewrite (or_zero_falsy _ Hn), (py_ge_zero_of_not_negative _ Ho).
  - intros o n old new Hid Ho Hn Hlen.
    rewrite (delta_same_id _ _ _ _ Hid). unfold compare_pair.
    rewrite (or_zero_falsy _ Ho), (py_ge_zero_positive _ Hn).
    rewrite Hlen, Nat.eqb_refl. eexists. split; [reflexivity|].
    apply scan_columns_cases.
Qed.

(** ** Timestamp moved, columns equal *)

Lemma scan_columns_equal_values om nm l0 l1 :
  Forall2 (fun a b => py_ne a b = false) l0 l1 ->
  scan_columns om nm (combine l0 l1) = UPD.
Proof. induction 1 as [|a b l0 l1 H _ IH]; simpl; [|rewrite H]; auto. Qed.

(** X10. When both cursors stand on rows with the same id, the new row is
    strictly fresher and the two column lists hold equal values position
    by position, [delta] yields [UPD] with the new row, whether or not any
    column is one of the timestamp objects. *)
Theorem delta_fresher_pair_with_equal_columns o n old new :
  id o = id n ->
  py_lt (or_zero (val (modified o))) (or_zero (val (modified n))) = Ok true ->
  Forall2 (fun a b => py_ne a b = false) (columns o) (columns n) ->
  delta (o :: old) (n :: new) = Yield (UPD, n) (delta old new).
Proof.
  intros Hid Hlt Heq.
  rewrite (delta_same_id _ _ _ _ Hid). unfold compare_pair.
  rewrite (py_lt_not_ge _ _ Hlt), (Forall2_length Heq), Nat.eqb_refl.
  now rewrite (scan_columns_equal_values _ _ _ _ Heq).
Qed.

(** ** Streams that repeat one id *)

Lemma entries_by_op op rows :
  deleted (map (pair op) rows) = match op with DEL => rows | _ => [] end
  /\ added (map (pair op) rows) = match op with ADD => rows | _ => [] end
  /\ changed (map (pair op) rows)
     = match op with MOD | UPD => rows | _ => [] end.
Proof.
  induction rows as [|r rows (D & A & C)]; cbn [map].
  - now destruct op.
  - rewrite deleted_cons, added_cons, changed_cons, D, A, C.
    now destruct op.
Qed.

(** X8. When every row of both streams has the same id and each old row
    can be compared with the new row at the same position, [delta] pairs
    the rows by position: it ends normally, yields [MOD] or [UPD] for
    exactly the new rows that test as strictly fresher than the old row at
    their position, then adds the new rows beyond the length of the old
    stream or deletes the old rows beyond the length of the new stream. *)
Theorem delta_repeated_id_pairs_by_position i old new :
  (forall r, In r (old ++ new) -> id r = i) ->
  Forall matched (combine old new) ->
  raised (delta old new) = None
  /\ changed (yields (delta old new))
     = map snd (filter newer_pair (combine old new))
  /\ deleted (yields (delta old new)) = skipn (List.length new) old
  /\ added (yields (delta old new)) = skipn (List.length old) new.
Proof.
  cursor_induction old new.
  - intros new _ _. rewrite delta_nil_l, raised_emit_all, yields_emit_all.
    destruct (entries_by_op ADD new) as (-> & -> & ->).
    now rewrite skipn_nil.
  - intros old _ _. rewrite delta_nil_r, raised_emit_all, yields_emit_all.
    destruct (entries_by_op DEL old) as (-> & -> & ->).
    rewrite skipn_nil. now destruct old.
  - intros o os n ns _ _ IH Hid Hm.
    assert (E : id o = id n).
    { rewrite (Hid o), (Hid n); auto; apply in_or_app; simpl; auto. }
    cbn [combine] in Hm. apply Forall_cons_iff in Hm as [[res C] Hm].
    cbn [fst snd] in C.
    destruct IH as (R & Ch & D & A); auto.
    { intros r Hr. apply Hid.
      apply in_app_or in Hr as [Hr|Hr]; apply in_or_app; simpl; auto. }
    rewrite (delta_same_id _ _ _ _ E), C.
    pose proof (compare_pair_newer _ _ _ C) as Hn.
    cbn [combine filter List.length skipn]. unfold newer_pair at 1.
    cbn [fst snd].
    destruct res as [op|]; rewrite Hn; cbn [raised yields map snd].
    + rewrite deleted_cons, added_cons, changed_cons, Ch, D, A.
      destruct (compare_pair_not_DEL _ _ _ C); subst op; auto.
    + auto.
Qed.

(** ** The rows delta_partial yields *)

Lemma filter_all_true {A : Type} (l : list A) : filter (fun _ => true) l = l.
Proof. induction l; simpl; congruence. Qed.

Lemma to_write_skip_old o old x :
  id_eqb (id o) (id x) = false -> to_write (o :: old) x = to_write old x.
Proof.
  intros H. unfold to_write. rewrite refreshes_cons. simpl. now rewrite H.
Qed.

Lemma delta_kept_strict old new :
  StronglySorted row_lt old -> StronglySorted row_lt new ->
  orderable old new -> well_matched old new ->
  kept (yields (delta old new)) = filter (to_write old) new.
Proof.
  cursor_induction old new.
  - intros new _ _ _ _. rewrite delta_nil_l, yields_emit_all.
    unfold kept. rewrite entries_of_one_op.
    exact (eq_trans (filter_all_true new) (eq_sym (filter_all_true new))).
  - intros old _ _ _ _. rewrite delta_nil_r, yields_emit_all.
    unfold kept. rewrite entries_of_one_op. exact (filter_none old).
  - intros o os n ns IH1 IH2 IH3 Ho Hn Hord Hwm.
    pose proof (strictly_ascending_inv _ _ Ho) as [Hos Fo].
    pose proof (strictly_ascending_inv _ _ Hn) as [Hns Fn].
    assert (Hord1 : orderable os (n :: ns))
      by (intros a b Ha Hb; apply Hord; simpl; auto).
    assert (Hord2 : orderable (o :: os) ns)
      by (intros a b Ha Hb; apply Hord; simpl; auto).
    assert (Hord3 : orderable os ns)
      by (intros a b Ha Hb; apply Hord; simpl; auto).
    assert (Hwm1 : well_matched os (n :: ns))
      by (intros a b Ha Hb; apply Hwm; simpl; auto).
    assert (Hwm2 : well_matched (o :: os) ns)
      by (intros a b Ha Hb; apply Hwm; simpl; auto).
    assert (Hwm3 : well_matched os ns)
      by (intros a b Ha Hb; apply Hwm; simpl; auto).
    specialize (IH1 Hos Hn Hord1 Hwm1).
    specialize (IH2 Ho Hns Hord2 Hwm2).
    specialize (IH3 Hos Hns Hord3 Hwm3).
    rewrite delta_cons.
    destruct (id_tests (id o) (id n))
      as [[E _]|[[L E]|[(L & E & E')|(L & E & E')]]].
    + exfalso. apply (Hord o n); simpl; auto.
    + rewrite E. cbn [yields]. rewrite kept_cons, IH1.
      assert (Habove : forall x, In x (n :: ns) -> id_less (id o) (id x)).
      { intros x [<-|Hx]; [exact L|].
        exact (id_cmp_lt_trans _ _ _ L (Fn x Hx)). }
      apply filter_ext_in. intros x Hx. symmetry.
      apply to_write_skip_old. exact (proj1 (id_eqb_less _ _ (Habove x Hx))).
    + rewrite E, E'. cbn [yields]. rewrite kept_cons, IH2.
      assert (Habove : forall x, In x (o :: os) -> id_less (id n) (id x)).
      { intros x [<-|Hx]; [exact L|].
        exact (id_cmp_lt_trans _ _ _ L (Fo x Hx)). }
      cbn [filter]. unfold to_write at 2.
      now rewrite (has_id_above _ _ Habove).
    + rewrite E, E'.
      assert (Eon : id_eqb (id o) (id n) = true) by now apply id_eqb_eq.
      assert (Fo' : forall x, In x os -> id_less (id n) (id x))
        by (intros x Hx; rewrite <- L; auto).
      assert (Fn' : forall x, In x ns -> id_less (id o) (id x))
        by (intros x Hx; rewrite L; auto).
      assert (Hn' : to_write (o :: os) n = newer o n).
      { unfold to_write. rewrite refreshes_cons. simpl.
        now rewrite Eon, (refreshes_above _ _ Fo'), orb_false_r. }
      assert (Hrest : filter (to_write (o :: os)) ns = filter (to_write os) ns).
      { apply filter_ext_in. intros x Hx. apply to_write_skip_old.
        exact (proj1 (id_eqb_less _ _ (Fn' x Hx))). }
      cbn [filter]. rewrite Hn', Hrest.
      destruct (Hwm o n) as [res Hres]; [simpl; auto ..|].
      rewrite Hres. pose proof (compare_pair_newer _ _ _ Hres) as Hnew.
      destruct res as [op|]; rewrite Hnew; cbn [yields]; [|exact IH3].
      rewrite kept_cons, IH3.
      destruct (compare_pair_not_DEL _ _ _ Hres); subst op; reflexivity.
Qed.

(** X12. For two streams in strictly increasing id order whose ids can be
    ordered across the streams and whose same-id pairs can be compared,
    [delta_partial] ends normally and the rows it yields are, in stream
    order, exactly the new rows whose id is not in the old stream and the
    new rows that test as strictly fresher than the old row with their
    id. *)
Theorem delta_partial_yields_rows_to_write old new :
  strictly_ascending old -> strictly_ascending new ->
  orderable old new -> well_matched old new ->
  raised (delta_partial old new) = None
  /\ map snd (yields (delta_partial old new)) = filter (to_write old) new.
Proof.
  intros Ho Hn Hord Hwm.
  apply strictly_ascending_strong in Ho, Hn.
  destruct (delta_entries_strict old new Ho Hn Hord Hwm) as (R & _).
  pose proof (delta_kept_strict old new Ho Hn Hord Hwm) as K.
  unfold delta_partial, yield_from.
  rewrite gen_then_Stop, raised_gen_filter, yields_gen_filter.
  split; [exact R|]. rewrite <- K. unfold kept. f_equal.
  apply filter_ext. intros [[] r]; reflexivity.
Qed.

(** ** Worked instances *)

Module InstanceChecks.
Import Instances.

Example delta_timestamp_only :
  delta [row4] [row5] = Yield (UPD, row5) Stop.
Proof. reflexivity. Qed.

Example delta_timestamp_copy :
  delta [row4] [row5_copy] = Yield (MOD, row5_copy) Stop.
Proof. reflexivity. Qed.

Example delta_changed_column :
  delta [row4] [row7] = Yield (MOD, row7) Stop.
Proof. reflexivity. Qed.

Example delta_mixed :
  delta [row1; row4; row9] [row2; row5; row9]
  = Yield (DEL, row1) (Yield (ADD, row2) (Yield (UPD, row5) Stop)).
Proof. reflexivity. Qed.

Example delta_length_mismatch :
  delta [row4] [mkDeltaRow (IdInt 1100) t201 [x_new]] = Raise AssertionError.
Proof. reflexivity. Qed.

Example delta_length_mismatch_not_fresher :
  delta [row5] [mkDeltaRow (IdInt 1100) t200 [x_new]] = Stop.
Proof. reflexivity. Qed.

Example delta_nan_on_both_sides :
  delta [nan_stamped] [nan_stamped] = Yield (UPD, nan_stamped) Stop.
Proof. reflexivity. Qed.

Example delta_unchanged_on_both_sides :
  delta [unchanged_row] [unchanged_row] = Stop.
Proof. reflexivity. Qed.

Example delta_repeated_ids :
  delta [row4; row4] [row5; row7]
  = Yield (UPD, row5) (Yield (MOD, row7) Stop).
Proof. reflexivity. Qed.

Example delta_partial_mixed :
  delta_partial [row1; row4; row9] [row2; row5; row9]
  = Yield (ADD, row2) (Yield (UPD, row5) Stop).
Proof. reflexivity. Qed.

Example delta_mixed_id_kinds :
  delta [row1] [mkDeltaRow (IdStr "a") none []] = Raise TypeError.
Proof. reflexivity. Qed.

End InstanceChecks.

(** ** Instances of the theorems *)

Ltac split_In :=
  repeat match goal with
         | H : In _ (_ ++ _) |- _ => apply in_app_or in H; destruct H as [H|H]
         | H : In _ (_ :: _) |- _ => destruct H as [H|H]; [subst|]
         | H : In _ [] |- _ => destruct H
         end.

(** C1 on [row4] and [row5]: only the mirrored timestamp differs. *)
Lemma delta_fresher_pair_UPD_or_MOD_witness :
  id Instances.row4 = id Instances.row5
  /\ py_lt (or_zero (val (modified Instances.row4)))
           (or_zero (val (modified Instances.row5))) = Ok true
  /\ List.length (columns Instances.row4)
     = List.length (columns Instances.row5)
  /\ exists op,
       delta [Instances.row4] [Instances.row5]
       = Yield (op, Instances.row5) (delta [] [])
       /\ (op = UPD <-> timestamp_only Instances.row4 Instances.row5)
       /\ (op = MOD <-> ~ timestamp_only Instances.row4 Instances.row5).
Proof.
  split; [reflexivity|]. split; [reflexivity|]. split; [reflexivity|].
  apply (delta_fresher_pair_UPD_or_MOD Instances.row4 Instances.row5 [] []);
    reflexivity.
Defined.

(** C2 on [row5] against the older [row4]. *)
Lemma delta_not_fresher_pair_skipped_witness :
  id Instances.row5 = id Instances.row4
  /\ py_ge (or_zero (val (modified Instances.row5)))
           (or_zero (val (modified Instances.row4))) = Ok true
  /\ compare_pair Instances.row5 Instances.row4 = Ok None
  /\ delta [Instances.row5] [Instances.row4] = delta [] []
  /\ forall cols_o cols_n,
       delta [mkDeltaRow (id Instances.row5) (modified Instances.row5) cols_o]
             [mkDeltaRow (id Instances.row4) (modified Instances.row4) cols_n]
       = delta [] [].
Proof.
  split; [reflexivity|]. split; [reflexivity|].
  apply (delta_not_fresher_pair_skipped Instances.row5 Instances.row4 [] []);
    reflexivity.
Defined.

(** C7 on a null and a zero timestamp. *)
Lemma null_and_zero_modified_interchangeable_witness :
  (null_or_zero Instances.none /\ null_or_zero Instances.zero
   /\ py_ge (or_zero (val Instances.none)) (or_zero (val Instances.t200))
      = py_ge (or_zero (val Instances.zero)) (or_zero (val Instances.t200))
   /\ py_ge (or_zero (val Instances.t200)) (or_zero (val Instances.none))
      = py_ge (or_zero (val Instances.t200)) (or_zero (val Instances.zero)))
  /\ (id (mkDeltaRow (IdInt 1) Instances.none [Instances.x_old])
      = id (mkDeltaRow (IdInt 1) Instances.zero [Instances.x_old])
      /\ null_or_zero Instances.none /\ null_or_zero Instances.zero
      /\ delta [mkDeltaRow (IdInt 1) Instances.none [Instances.x_old]]
               [mkDeltaRow (IdInt 1) Instances.zero [Instances.x_old]]
         = delta [] []).
Proof.
  assert (Hn : null_or_zero Instances.none) by (left; reflexivity).
  assert (Hz : null_or_zero Instances.zero) by (right; reflexivity).
  destruct null_and_zero_modified_interchangeable as [Hcmp Hpair].
  split.
  - split; [exact Hn|]. split; [exact Hz|].
    exact (Hcmp Instances.none Instances.zero Instances.t200 Hn Hz).
  - split; [reflexivity|]. split; [exact Hn|]. split; [exact Hz|].
    exact (Hpair (mkDeltaRow (IdInt 1) Instances.none [Instances.x_old])
                 (mkDeltaRow (IdInt 1) Instances.zero [Instances.x_old])
                 [] [] eq_refl Hn Hz).
Defined.

(** C3 on streams with ids 1000, 1100 and 1001. *)
Lemma delta_disjoint_streams_witness :
  no_shared_ids [Instances.row1; Instances.row4] [Instances.row2]
  /\ raised (delta [Instances.row1; Instances.row4] [Instances.row2]) = None
  /\ filter is_DEL
       (yields (delta [Instances.row1; Instances.row4] [Instances.row2]))
     = map (pair DEL) [Instances.row1; Instances.row4]
  /\ filter not_DEL
       (yields (delta [Instances.row1; Instances.row4] [Instances.row2]))
     = map (pair ADD) [Instances.row2].
Proof.
  assert (H : no_shared_ids [Instances.row1; Instances.row4] [Instances.row2]).
  { intros o n Ho Hn. split_In; split; discriminate. }
  split; [exact H|].
  exact (proj1 delta_disjoint_streams _ _ H).
Defined.


(** C8 on two streams of two rows, extended by a row with a greater id. *)
Lemma delta_ascending_and_prefix_stable_witness :
  (ascending [Instances.row1; Instances.row4]
   /\ ascending [Instances.row2; Instances.row5]
   /\ ascending
        (map snd (yields (delta [Instances.row1; Instances.row4]
                                [Instances.row2; Instances.row5]))))
  /\ ((forall r r',
          In r ([Instances.row1; Instances.row4]
                ++ [Instances.row2; Instances.row5]) ->
          In r' ([Instances.row9] ++ [Instances.row9]) ->
          id_less (id r) (id r'))
      /\ exists rest,
          yields (delta ([Instances.row1; Instances.row4] ++ [Instances.row9])
                        ([Instances.row2; Instances.row5] ++ [Instances.row9]))
          = yields (delta [Instances.row1; Instances.row4]
                          [Instances.row2; Instances.row5]) ++ rest).
Proof.
  assert (Ho : ascending [Instances.row1; Instances.row4])
    by (repeat constructor).
  assert (Hn : ascending [Instances.row2; Instances.row5])
    by (repeat constructor).
  assert (Hlow : forall r r',
             In r ([Instances.row1; Instances.row4]
                   ++ [Instances.row2; Instances.row5]) ->
             In r' ([Instances.row9] ++ [Instances.row9]) ->
             id_less (id r) (id r'))
    by (intros r r' Hr Hr'; split_In; reflexivity).
  destruct delta_ascending_and_prefix_stable as [Hasc Hpre].
  split.
  - split; [exact Ho|]. split; [exact Hn|]. exact (Hasc _ _ Ho Hn).
  - split; [exact Hlow|]. exact (Hpre _ _ _ _ Hlow).
Defined.

(** C4, amended, on two streams of three rows: an orphan on each side,
    a refreshed pair and an unchanged pair. *)
Lemma delta_one_entry_per_orphan_and_fresher_pair_witness :
  let old := [Instances.row1; Instances.row4; Instances.row9] in
  let new := [Instances.row2; Instances.row5; Instances.row9] in
  strictly_ascending old
  /\ strictly_ascending new
  /\ orderable old new
  /\ well_matched old new
  /\ raised (delta old new) = None
  /\ deleted (yields (delta old new)) = orphans old new
  /\ added (yields (delta old new)) = orphans new old
  /\ changed (yields (delta old new)) = refreshed old new
  /\ List.length (yields (delta old new))
     = (List.length (refreshed old new)
        + List.length (orphans old new) + List.length (orphans new old))%nat.
Proof.
  intros old new.
  assert (Ho : strictly_ascending old) by (repeat constructor).
  assert (Hn : strictly_ascending new) by (repeat constructor).
  assert (Hord : orderable old new)
    by (intros o n H H'; unfold old, new in *; split_In; discriminate).
  assert (Hwm : well_matched old new)
    by (intros o n H H' E; unfold old, new in *; split_In;
        try discriminate E; eexists; reflexivity).
  split; [exact Ho|]. split; [exact Hn|]. split; [exact Hord|].
  split; [exact Hwm|].
  exact (delta_one_entry_per_orphan_and_fresher_pair old new Ho Hn Hord Hwm).
Defined.

(** ** Instances of the further theorems *)

(** X3 on two streams with null and integer timestamps. *)
Lemma delta_errors_on_numeric_timestamps_witness :
  let old := [Instances.row1; Instances.row4] in
  let new := [Instances.row2; Instances.row5] in
  orderable old new
  /\ (forall r, In r (old ++ new) -> null_or_number (modified r))
  /\ (raised (delta old new) = Some AssertionError <->
      exists o os n ns,
        visits old new (o :: os) (n :: ns)
        /\ id o = id n
        /\ py_lt (or_zero (val (modified o))) (or_zero (val (modified n)))
           = Ok true
        /\ List.length (columns o) <> List.length (columns n))
  /\ (raised (delta old new) <> Some AssertionError ->
      raised (delta old new) = None).
Proof.
  intros old new.
  assert (Hord : orderable old new)
    by (intros o n H H'; unfold old, new in *; split_In; discriminate).
  assert (Hnum : forall r, In r (old ++ new) -> null_or_number (modified r))
    by (intros r H; unfold old, new in *; split_In; exact I).
  split; [exact Hord|]. split; [exact Hnum|].
  exact (delta_errors_on_numeric_timestamps old new Hord Hnum).
Defined.

(** X4 on two streams of three rows. *)
Lemma delta_row_count_balance_witness :
  let old := [Instances.row1; Instances.row4; Instances.row9] in
  let new := [Instances.row2; Instances.row5; Instances.row9] in
  raised (delta old new) = None
  /\ (List.length (deleted (yields (delta old new))) + List.length new
      = List.length (added (yields (delta old new))) + List.length old)%nat.
Proof.
  intros old new.
  assert (H : raised (delta old new) = None) by reflexivity.
  split; [exact H|]. exact (delta_row_count_balance old new H).
Defined.

(** X5 on two streams of three rows. *)
Lemma delta_entries_bring_old_to_new_witness :
  let old := [Instances.row1; Instances.row4; Instances.row9] in
  let new := [Instances.row2; Instances.row5; Instances.row9] in
  strictly_ascending old
  /\ strictly_ascending new
  /\ orderable old new
  /\ well_matched old new
  /\ (forall i,
         In i (ids new) <->
         In i (ids (added (yields (delta old new))))
         \/ (In i (ids old)
             /\ ~ In i (ids (deleted (yields (delta old new))))))
  /\ (forall o n,
         In o old -> In n new -> id o = id n ->
         (In n (changed (yields (delta old new))) <-> newer o n = true)).
Proof.
  intros old new.
  assert (Ho : strictly_ascending old) by (repeat constructor).
  assert (Hn : strictly_ascending new) by (repeat constructor).
  assert (Hord : orderable old new)
    by (intros o n H H'; unfold old, new in *; split_In; discriminate).
  assert (Hwm : well_matched old new)
    by (intros o n H H' E; unfold old, new in *; split_In;
        try discriminate E; eexists; reflexivity).
  split; [exact Ho|]. split; [exact Hn|]. split; [exact Hord|].
  split; [exact Hwm|].
  exact (delta_entries_bring_old_to_new old new Ho Hn Hord Hwm).
Defined.

(** X6 on an id range below 1100 followed by a range from 1100 on. *)
Lemma delta_of_two_id_ranges_witness :
  (forall r r',
      In r ([Instances.row1] ++ [Instances.row2]) ->
      In r' ([Instances.row4; Instances.row9] ++ [Instances.row5]) ->
      id_less (id r) (id r'))
  /\ delta ([Instances.row1] ++ [Instances.row4; Instances.row9])
           ([Instances.row2] ++ [Instances.row5])
     = gen_then (delta [Instances.row1] [Instances.row2])
                (delta [Instances.row4; Instances.row9] [Instances.row5]).
Proof.
  assert (H : forall r r',
             In r ([Instances.row1] ++ [Instances.row2]) ->
             In r' ([Instances.row4; Instances.row9] ++ [Instances.row5]) ->
             id_less (id r) (id r'))
    by (intros r r' Hr Hr'; split_In; reflexivity).
  split; [exact H|].
  exact (delta_of_two_id_ranges _ _ _ _ H).
Defined.

(** X7 on a new row without timestamp against a stamped old row, and on
    an old row without timestamp against a stamped new row. *)
Lemma delta_rows_without_timestamp_witness :
  let bare := mkDeltaRow (IdInt 1100) Instances.none [Instances.y_new] in
  let bare2 :=
    mkDeltaRow (IdInt 1100) Instances.none
               [Instances.x_old; Instances.none] in
  (id Instances.row4 = id bare
   /\ truthy (val (modified bare)) = false
   /\ null_or_not_negative (modified Instances.row4)
   /\ delta [Instances.row4] [bare] = delta [] [])
  /\ (id bare2 = id Instances.row5
      /\ truthy (val (modified bare2)) = false
      /\ positive_number (modified Instances.row5)
      /\ List.length (columns bare2) = List.length (columns Instances.row5)
      /\ exists op,
          delta [bare2] [Instances.row5]
          = Yield (op, Instances.row5) (delta [] [])
          /\ (op = UPD \/ op = MOD)).
Proof.
  intros bare bare2.
  assert (H4 : null_or_not_negative (modified Instances.row4))
    by (cbv; discriminate).
  assert (H5 : positive_number (modified Instances.row5)) by reflexivity.
  destruct delta_rows_without_timestamp as [Hskip Hemit].
  split.
  - split; [reflexivity|]. split; [reflexivity|]. split; [exact H4|].
    exact (Hskip Instances.row4 bare [] [] eq_refl eq_refl H4).
  - split; [reflexivity|]. split; [reflexivity|]. split; [exact H5|].
    split; [reflexivity|].
    exact (Hemit bare2 Instances.row5 [] [] eq_refl eq_refl H5 eq_refl).
Defined.

(** X8 on two streams that repeat the id 1100. *)
Lemma delta_repeated_id_pairs_by_position_witness :
  let old := [Instances.row4; Instances.row4; Instances.row4] in
  let new := [Instances.row5; Instances.row7] in
  (forall r, In r (old ++ new) -> id r = IdInt 1100)
  /\ Forall matched (combine old new)
  /\ raised (delta old new) = None
  /\ changed (yields (delta old new))
     = map snd (filter newer_pair (combine old new))
  /\ deleted (yields (delta old new)) = skipn (List.length new) old
  /\ added (yields (delta old new)) = skipn (List.length old) new.
Proof.
  intros old new.
  assert (Hid : forall r, In r (old ++ new) -> id r = IdInt 1100)
    by (intros r H; unfold old, new in *; split_In; reflexivity).
  assert (Hm : Forall matched (combine old new))
    by (repeat constructor; eexists; reflexivity).
  split; [exact Hid|]. split; [exact Hm|].
  exact (delta_repeated_id_pairs_by_position (IdInt 1100) old new Hid Hm).
Defined.

(** X9 on two streams of two rows. *)
Lemma delta_reverse_swaps_DEL_and_ADD_witness :
  let old := [Instances.row1; Instances.row4] in
  let new := [Instances.row2; Instances.row5] in
  raised (delta old new) = None
  /\ raised (delta new old) = None
  /\ deleted (yields (delta old new)) = added (yields (delta new old))
  /\ added (yields (delta old new)) = deleted (yields (delta new old)).
Proof.
  intros old new.
  assert (H1 : raised (delta old new) = None) by reflexivity.
  assert (H2 : raised (delta new old) = None) by reflexivity.
  split; [exact H1|]. split; [exact H2|].
  exact (delta_reverse_swaps_DEL_and_ADD old new H1 H2).
Defined.

(** X10 on two rows whose one column holds equal strings in different
    objects. *)
Lemma delta_fresher_pair_with_equal_columns_witness :
  let o := mkDeltaRow (IdInt 1100) Instances.t200 [Instances.x_old] in
  let n := mkDeltaRow (IdInt 1100) Instances.t201 [Instances.x_new] in
  id o = id n
  /\ py_lt (or_zero (val (modified o))) (or_zero (val (modified n))) = Ok true
  /\ Forall2 (fun a b => py_ne a b = false) (columns o) (columns n)
  /\ delta [o] [n] = Yield (UPD, n) (delta [] []).
Proof.
  intros o n.
  assert (H : Forall2 (fun a b => py_ne a b = false) (columns o) (columns n))
    by (repeat constructor).
  split; [reflexivity|]. split; [reflexivity|]. split; [exact H|].
  exact (delta_fresher_pair_with_equal_columns o n [] [] eq_refl eq_refl H).
Defined.

(** X12 on two streams of three rows. *)
Lemma delta_partial_yields_rows_to_write_witness :
  let old := [Instances.row1; Instances.row4; Instances.row9] in
  let new := [Instances.row2; Instances.row5; Instances.row9] in
  strictly_ascending old
  /\ strictly_ascending new
  /\ orderable old new
  /\ well_matched old new
  /\ raised (delta_partial old new) = None
  /\ map snd (yields (delta_partial old new)) = filter (to_write old) new.
Proof.
  intros old new.
  assert (Ho : strictly_ascending old) by (repeat constructor).
  assert (Hn : strictly_ascending new) by (repeat constructor).
  assert (Hord : orderable old new)
    by (intros o n H H'; unfold old, new in *; split_In; discriminate).
  assert (Hwm : well_matched old new)
    by (intros o n H H' E; unfold old, new in *; split_In;
        try discriminate E; eexists; reflexivity).
  split; [exact Ho|]. split; [exact Hn|]. split; [exact Hord|].
  split; [exact Hwm|].
  exact (delta_partial_yields_rows_to_write old new Ho Hn Hord Hwm).
Defined.
